(** * Verification of the promql/series check of pint

    A shallow embedding of [internal/checks/promql_series.go]: the data it
    handles (selectors, matchers, label sets, time ranges, problems), the
    helper functions ([stripLabels], [getSelectors], [serieTimeRanges],
    [getMinAge], [isLabelValueIgnored], the [timeRanges] methods) and
    [SeriesCheck.Check] itself, written in a small state monad that records
    every call made to the Prometheus backend and to the rule's comment
    store.

    Times ([time.Time]) are nanoseconds since the Unix epoch as [Z];
    durations ([time.Duration]) are nanoseconds as [Z]; sample timestamps
    ([model.Time]) are milliseconds. The int64 wrap-around of Go's time
    arithmetic is not reached by the values the check handles and is not
    modelled. *)

From Stdlib Require Import ZArith Lia Ascii Sorting.Sorted.
From stdpp Require Import base list gmap strings.

Open Scope Z_scope.

(** ** Strings *)

(** The double quote character (ASCII 34). *)
Definition dq : string := String (Ascii.Ascii false true false false false true false false) EmptyString.

Definition quote (s : string) : string := dq +:+ s +:+ dq.

Fixpoint join (sep : string) (l : list string) : string :=
  match l with
  | [] => ""
  | [x] => x
  | x :: rest => x +:+ sep +:+ join sep rest
  end.

Fixpoint insert_sorted (s : string) (l : list string) : list string :=
  match l with
  | [] => [s]
  | x :: rest => if String.leb s x then s :: l else x :: insert_sorted s rest
  end.

(** [sort.Strings]. *)
Definition sort_strings (l : list string) : list string := fold_right insert_sorted [] l.

(** ** Selectors (prometheus/model/labels and promql/parser) *)

Inductive MatchType := MatchEqual | MatchNotEqual | MatchRegexp | MatchNotRegexp.

Definition MatchType_eqb (a b : MatchType) : bool :=
  match a, b with
  | MatchEqual, MatchEqual | MatchNotEqual, MatchNotEqual
  | MatchRegexp, MatchRegexp | MatchNotRegexp, MatchNotRegexp => true
  | _, _ => false
  end.

Definition MatchType_String (t : MatchType) : string :=
  match t with
  | MatchEqual => "="
  | MatchNotEqual => "!="
  | MatchRegexp => "=~"
  | MatchNotRegexp => "!~"
  end.

Record Matcher := { lm_Type : MatchType; lm_Name : string; lm_Value : string }.

(** [labels.Matcher.String]: [fmt.Sprintf("%s%s%q", m.Name, m.Type, m.Value)];
    the escaping of special characters done by [%q] is not modelled. *)
Definition Matcher_String (m : Matcher) : string :=
  lm_Name m +:+ MatchType_String (lm_Type m) +:+ quote (lm_Value m).

Record VectorSelector := { vs_Name : string; vs_LabelMatchers : list Matcher }.

Definition MetricName : string := "__name__".

(** [VectorSelector.String] of the promql parser (selectors without offset):
    the [__name__] equality matcher equal to [Name] is left out, the other
    matchers are sorted and put in braces. *)
Definition VectorSelector_String (vs : VectorSelector) : string :=
  let labelStrings :=
    map Matcher_String
      (filter (fun m => negb (String.eqb (lm_Name m) MetricName
                              && MatchType_eqb (lm_Type m) MatchEqual
                              && String.eqb (lm_Value m) (vs_Name vs)))
              (vs_LabelMatchers vs)) in
  match labelStrings with
  | [] => vs_Name vs
  | _ => vs_Name vs +:+ "{" +:+ join "," (sort_strings labelStrings) +:+ "}"
  end.

(** [stripLabels]. *)
Definition stripLabels (selector : VectorSelector) : VectorSelector :=
  fold_left
    (fun s lm =>
       if String.eqb (lm_Name lm) MetricName
       then {| vs_Name := lm_Value lm; vs_LabelMatchers := vs_LabelMatchers s ++ [lm] |}
       else s)
    (vs_LabelMatchers selector)
    {| vs_Name := vs_Name selector; vs_LabelMatchers := [] |}.

#[local] Set Warnings "-register-all".

(** The expression tree ([parser.PromQLNode]): [Node] is [Some vs] when the
    node is a vector selector (its offset already dropped). *)
Inductive PromQLNode := mkNode { Node : option VectorSelector; Children : list PromQLNode }.

(** [getSelectors]. *)
Fixpoint getSelectors (n : PromQLNode) : list VectorSelector :=
  let here := match Node n with Some vs => [vs] | None => [] end in
  here ++ (fix go (cs : list PromQLNode) : list VectorSelector :=
             match cs with
             | [] => []
             | c :: rest => getSelectors c ++ go rest
             end) (Children n).

(** ** Label sets and time ranges *)

(** [model.LabelSet]; [LabelSet.Equal] is equality of the maps. *)
Abbreviation LabelSet := (gmap string string).

Record timeRange := { tr_labels : LabelSet; tr_start : Z; tr_end : Z }.

Record timeRanges := {
  uri : string;
  from : Z;
  until : Z;
  step : Z;
  ranges : list timeRange
}.

(** A series of a range query result: its labels and the timestamps
    (milliseconds, [model.Time]) of its values; the values themselves are
    not read by [serieTimeRanges]. *)
Record SampleStream := { s_Metric : LabelSet; s_Values : list Z }.

Record RangeQueryResult := {
  qr_URI : string;
  qr_Start : Z;
  qr_End : Z;
  qr_Samples : list SampleStream
}.

(** [model.Time.Time()]: milliseconds to a [time.Time]. *)
Definition toTime (ms : Z) : Z := ms * 1000000.

(** The inner loop of [serieTimeRanges] for one timestamp: the first range
    with the same labels and [start <= ts <= end] is extended to
    [ts + step]; [None] when there is no such range ([found] stays false). *)
Fixpoint extendRange (lbls : LabelSet) (ts stp : Z) (rs : list timeRange)
  : option (list timeRange) :=
  match rs with
  | [] => None
  | r :: rest =>
      if bool_decide (tr_labels r = lbls) && (tr_start r <=? ts) && (ts <=? tr_end r)
      then Some ({| tr_labels := tr_labels r; tr_start := tr_start r; tr_end := ts + stp |} :: rest)
      else option_map (cons r) (extendRange lbls ts stp rest)
  end.

Definition addSample (lbls : LabelSet) (stp : Z) (rs : list timeRange) (ms : Z) : list timeRange :=
  let ts := toTime ms in
  match extendRange lbls ts stp rs with
  | Some rs' => rs'
  | None => rs ++ [{| tr_labels := lbls; tr_start := ts; tr_end := ts + stp |}]
  end.

(** The two loops of [serieTimeRanges] over [qr.Samples] and [s.Values]. *)
Definition buildRanges (stp : Z) (samples : list SampleStream) (rs : list timeRange) : list timeRange :=
  fold_left (fun rs s => fold_left (addSample (s_Metric s) stp) (s_Values s) rs) samples rs.

Definition timeRangesOf (qr : RangeQueryResult) (stp : Z) : timeRanges :=
  {| uri := qr_URI qr; from := qr_Start qr; until := qr_End qr; step := stp;
     ranges := buildRanges stp (qr_Samples qr) [] |}.

(** [timeRanges.withLabelName]: the keys of a label set are distinct, so a
    range is kept once when it has the label. *)
Definition withLabelName (tr : timeRanges) (name : string) : list timeRange :=
  filter (fun r => bool_decide (is_Some (tr_labels r !! name))) (ranges tr).

(** [timeRanges.labelValues]: the distinct values of the label. *)
Definition labelValues (tr : timeRanges) (name : string) : list string :=
  elements (list_to_set (omap (fun r => tr_labels r !! name) (ranges tr)) : gset string).

Definition duration (tr : timeRanges) : Z := until tr - from tr.

Definition Second : Z := 1000000000.

(** [timeRanges.avgLife]: [time.Second * time.Duration(int(d.Seconds())/len)].
    [int(d.Seconds())] truncates the float [d.Seconds()]; for durations that
    are whole milliseconds (as all ranges built from [model.Time] samples
    with a millisecond step are) and below 2^43 seconds the float is exact
    enough that this is integer truncation, as written here. *)
Definition avgLife (tr : timeRanges) : Z :=
  let d := fold_left (fun d r => d + (tr_end r - tr_start r)) (ranges tr) 0 in
  match ranges tr with
  | [] => 0
  | _ => Second * Z.quot (Z.quot d Second) (Z.of_nat (length (ranges tr)))
  end.

(** Go's zero [time.Time] (January 1, year 1, UTC), in nanoseconds since
    the Unix epoch. *)
Definition zeroTime : Z := -62135596800 * Second.

Definition IsZero (t : Z) : bool := t =? zeroTime.

(** [timeRanges.oldest]. *)
Definition oldest (tr : timeRanges) : Z :=
  fold_left (fun ts r => if IsZero ts || (tr_start r <? ts) then tr_start r else ts)
            (ranges tr) zeroTime.

(** [timeRanges.newest]. *)
Definition newest (tr : timeRanges) : Z :=
  fold_left (fun ts r => if IsZero ts || (ts <? tr_end r) then tr_end r else ts)
            (ranges tr) zeroTime.

(** ** [model.ParseDuration] of prometheus/common

    [^(([0-9]+)y)?(([0-9]+)w)?(([0-9]+)d)?(([0-9]+)h)?(([0-9]+)m)?(([0-9]+)s)?(([0-9]+)ms)?$],
    with ["0"] accepted and [""] refused. Each number/unit pair is read in
    turn; the units must come in the order of the expression, each at most
    once. The result is in nanoseconds; the overflow error is not modelled. *)

Definition is_digit (c : Ascii.ascii) : bool :=
  let n := Ascii.nat_of_ascii c in (48 <=? n)%nat && (n <=? 57)%nat.

(** The leading digits of a string, as a number, and the rest; [None]
    when the string does not start with a digit. *)
Fixpoint readDigits (s : string) (acc : option Z) : option Z * string :=
  match s with
  | String c rest =>
      if is_digit c
      then readDigits rest (Some (10 * default 0 acc + Z.of_nat (Ascii.nat_of_ascii c - 48)))
      else (acc, s)
  | EmptyString => (acc, s)
  end.

(** A unit: its position in the expression and its length in milliseconds. *)
Definition readUnit (s : string) : option (nat * Z * string) :=
  match s with
  | String "m"%char (String "s"%char rest) => Some (6%nat, 1, rest)
  | String "y"%char rest => Some (0%nat, 1000*60*60*24*365, rest)
  | String "w"%char rest => Some (1%nat, 1000*60*60*24*7, rest)
  | String "d"%char rest => Some (2%nat, 1000*60*60*24, rest)
  | String "h"%char rest => Some (3%nat, 1000*60*60, rest)
  | String "m"%char rest => Some (4%nat, 1000*60, rest)
  | String "s"%char rest => Some (5%nat, 1000, rest)
  | _ => None
  end.

(** Reads the pairs after the unit of position [< next]; [fuel] bounds the
    number of pairs. The result is in milliseconds. *)
Fixpoint readPairs (fuel : nat) (next : nat) (s : string) : option Z :=
  match s with
  | EmptyString => Some 0
  | _ =>
      match fuel with
      | O => None
      | S fuel' =>
          match readDigits s None with
          | (Some n, s') =>
              match readUnit s' with
              | Some (pos, mult, s'') =>
                  if (next <=? pos)%nat
                  then option_map (Z.add (n * mult)) (readPairs fuel' (S pos) s'')
                  else None
              | None => None
              end
          | (None, _) => None
          end
      end
  end.

Definition ParseDuration (durationStr : string) : option Z :=
  if String.eqb durationStr "0" then Some 0
  else if String.eqb durationStr "" then None
  else option_map (fun ms => ms * 1000000) (readPairs 7 0 durationStr).

(** ** Problems, the backend and the comment store *)

Inductive Severity := Information | Warning | Bug.

(** The text of a problem. [sinceDesc] reads the wall clock, so the messages
    keep the time they describe instead of the rendered text. *)
Inductive Msg :=
  | MsgAlertFound (selector alertname : string)
  | MsgAlertMissing (selector alertname : string)
  | MsgNoSeriesRecordingRule (uri bare : string) (since : Z)
  | MsgNoSeries (uri bare : string) (since : Z)
  | MsgNoLabel (uri bare name : string) (since : Z)
  | MsgDisappeared (uri bare : string) (lastSeen : Z)
  | MsgNoMatcherSeries (uri bare name matcher : string) (since : Z) (churn : option string)
  | MsgMatcherDisappeared (uri bare matcher : string) (lastSeen : Z)
  | MsgMatcherSometimes (bare matcher uri : string) (avg : Z)
  | MsgSometimes (bare uri : string) (avg since : Z)
  | MsgBadDuration (value : string)
  | MsgQueryError (text : string).

Record Problem := {
  Fragment : string;
  Reporter : string;
  Text : Msg;
  Severity_of : Severity
}.

Record QueryError := { qe_msg : string }.

Inductive result (A : Type) := Ok (a : A) | Err (e : QueryError).
Arguments Ok {A} a.
Arguments Err {A} e.

(** [parser.Comment] as returned by [rule.GetComment]. *)
Record Comment := { cmt_String : string; cmt_Value : string }.

(** What [Check] consults: the failover group of Prometheus servers
    ([prom.Query] gives the value of each returned series, [prom.RangeQuery]
    the range result), the comments of the rule ([rule.HasComment],
    [rule.GetComment]) and the shared error classification
    [textAndSeverityFromError], applied to an error and a default severity. *)
Record Env := {
  prom_Name : string;
  prom_Query : string -> result (list Z);
  prom_RangeQuery : string -> Z -> Z -> result RangeQueryResult;
  rule_HasComment : string -> bool;
  rule_GetComment : list string -> option Comment;
  textAndSeverityFromError : QueryError -> Severity -> string * Severity
}.

(** Modelled from the spec: [textAndSeverityFromError] (internal/checks),
    "mapped through a shared error-classification routine to a severity
    (default Bug) and a descriptive message": the error text and the
    default severity. *)
Definition textAndSeverityFromError_default (err : QueryError) (dflt : Severity) : string * Severity :=
  (qe_msg err, dflt).

(** A rule entry of [discovery.Entry]: the alert name of an alerting rule,
    the record name of a recording rule, and whether the rule failed to
    parse ([entry.Rule.Error.Err != nil]). *)
Record Entry := {
  e_AlertingRule : option string;
  e_RecordingRule : option string;
  e_Error : bool;
  e_Path : string
}.

(** The rule's expression: whether it has a syntax error, and its tree. *)
Record PromQLExpr := { SyntaxError : bool; Query : PromQLNode }.

(** ** The effects of the check

    [M] threads the list of calls made so far to the backend and to the
    comment store; the answers come from the [Env]. *)

Inductive Event :=
  | EvQuery (query : string)
  | EvRangeQuery (query : string) (lookback stp : Z)
  | EvHasComment (text : string)
  | EvGetComment (keys : list string).

Definition M (A : Type) : Type := list Event -> A * list Event.

Definition ret {A} (a : A) : M A := fun log => (a, log).

Definition bind {A B} (m : M A) (f : A -> M B) : M B :=
  fun log => let (a, log') := m log in f a log'.

Notation "x <- m ;; k" := (bind m (fun x => k))
  (at level 100, m at next level, right associativity).

Definition promQuery (env : Env) (q : string) : M (result (list Z)) :=
  fun log => (prom_Query env q, log ++ [EvQuery q]).

Definition promRangeQuery (env : Env) (q : string) (lookback stp : Z) : M (result RangeQueryResult) :=
  fun log => (prom_RangeQuery env q lookback stp, log ++ [EvRangeQuery q lookback stp]).

Definition HasComment (env : Env) (text : string) : M bool :=
  fun log => (rule_HasComment env text, log ++ [EvHasComment text]).

Definition GetComment (env : Env) (keys : list string) : M (option Comment) :=
  fun log => (rule_GetComment env keys, log ++ [EvGetComment keys]).

(** ** The check *)

Definition SeriesCheckName : string := "promql/series".

Definition rangeLookback : Z := 24 * 7 * 3600 * Second.
Definition rangeStep : Z := 5 * 60 * Second.

Definition sumZ (l : list Z) : Z := fold_left Z.add l 0.

(** [SeriesCheck.instantSeriesCount]. *)
Definition instantSeriesCount (env : Env) (query : string) : M (result Z) :=
  qr <- promQuery env query;;
  match qr with
  | Err e => ret (Err e)
  | Ok series => ret (Ok (sumZ series))
  end.

(** [SeriesCheck.serieTimeRanges]. *)
Definition serieTimeRanges (env : Env) (query : string) (lookback stp : Z) : M (result timeRanges) :=
  qr <- promRangeQuery env query lookback stp;;
  match qr with
  | Err e => ret (Err e)
  | Ok qr => ret (Ok (timeRangesOf qr stp))
  end.

(** [SeriesCheck.queryProblem]. *)
Definition queryProblem (env : Env) (err : QueryError) (selector : string) : Problem :=
  let (text, severity) := textAndSeverityFromError env err Bug in
  {| Fragment := selector; Reporter := SeriesCheckName;
     Text := MsgQueryError text; Severity_of := severity |}.

Definition selectorKey (selector : VectorSelector) : string :=
  SeriesCheckName +:+ "(" +:+ VectorSelector_String selector +:+ ")".

Definition minAgeKeys (selector : VectorSelector) : list (list string) :=
  [["rule/set"; SeriesCheckName; "min-age"];
   ["rule/set"; selectorKey (stripLabels selector); "min-age"];
   ["rule/set"; selectorKey selector; "min-age"]].

(** The loop of [getMinAge] over the comment keys. *)
Fixpoint probeMinAge (env : Env) (keys : list (list string)) (minAge : Z) (problems : list Problem)
  : M (Z * list Problem) :=
  match keys with
  | [] => ret (minAge, problems)
  | s :: rest =>
      c <- GetComment env s;;
      match c with
      | None => probeMinAge env rest minAge problems
      | Some cmt =>
          match ParseDuration (cmt_Value cmt) with
          | None =>
              probeMinAge env rest minAge
                (problems ++ [{| Fragment := cmt_String cmt; Reporter := SeriesCheckName;
                                 Text := MsgBadDuration (cmt_Value cmt); Severity_of := Warning |}])
          | Some dur => probeMinAge env rest dur problems
          end
      end
  end.

(** [SeriesCheck.getMinAge]. *)
Definition getMinAge (env : Env) (selector : VectorSelector) : M (Z * list Problem) :=
  probeMinAge env (minAgeKeys selector) (2 * 3600 * Second) [].

(** [SeriesCheck.isLabelValueIgnored]. *)
Fixpoint anyComment (env : Env) (texts : list string) : M bool :=
  match texts with
  | [] => ret false
  | s :: rest => b <- HasComment env s;; if b then ret true else anyComment env rest
  end.

Definition isLabelValueIgnored (env : Env) (selector : VectorSelector) (labelName : string) : M bool :=
  anyComment env
    ["rule/set " +:+ SeriesCheckName +:+ " ignore/label-value " +:+ labelName;
     "rule/set " +:+ selectorKey (stripLabels selector) +:+ " ignore/label-value " +:+ labelName;
     "rule/set " +:+ selectorKey selector +:+ " ignore/label-value " +:+ labelName].

Definition count (s : string) : string := "count(" +:+ s +:+ ")".

(** The metric name of a selector: [selector.Name], or the value of its
    first [__name__] equality matcher. *)
Definition metricNameOf (selector : VectorSelector) : string :=
  if String.eqb (vs_Name selector) "" then
    match find (fun lm => String.eqb (lm_Name lm) MetricName && MatchType_eqb (lm_Type lm) MatchEqual)
               (vs_LabelMatchers selector) with
    | Some lm => lm_Value lm
    | None => ""
    end
  else vs_Name selector.

(** The [alertname] of step 0: the value of the last [alertname] matcher
    that is neither a regexp nor a negated regexp matcher. *)
Definition alertnameOf (selector : VectorSelector) : string :=
  fold_left (fun alertname lm =>
               if String.eqb (lm_Name lm) "alertname"
                  && negb (MatchType_eqb (lm_Type lm) MatchRegexp)
                  && negb (MatchType_eqb (lm_Type lm) MatchNotRegexp)
               then lm_Value lm else alertname)
            (vs_LabelMatchers selector) "".

Definition isAlertingRuleNamed (alertname : string) (entry : Entry) : bool :=
  match e_AlertingRule entry with
  | Some alert => negb (e_Error entry) && String.eqb alert alertname
  | None => false
  end.

Definition findAlertingRule (entries : list Entry) (alertname : string) : option Entry :=
  find (isAlertingRuleNamed alertname) entries.

Definition findRecordingRule (entries : list Entry) (record : string) : option Entry :=
  find (fun entry => match e_RecordingRule entry with
                     | Some r => negb (e_Error entry) && String.eqb r record
                     | None => false
                     end) entries.

(** Step 0, the problems for an [ALERTS] / [ALERTS_FOR_STATE] selector. *)
Definition alertsProblems (selector : VectorSelector) (entries : list Entry) : list Problem :=
  let alertname := alertnameOf selector in
  if String.eqb alertname "" then []
  else match findAlertingRule entries alertname with
       | Some _ => [{| Fragment := VectorSelector_String selector; Reporter := SeriesCheckName;
                       Text := MsgAlertFound (VectorSelector_String selector) alertname;
                       Severity_of := Information |}]
       | None => [{| Fragment := VectorSelector_String selector; Reporter := SeriesCheckName;
                     Text := MsgAlertMissing (VectorSelector_String selector) alertname;
                     Severity_of := Bug |}]
       end.

(** Step 2 when the bare metric has no range at all. *)
Definition noSeriesProblems (entries : list Entry) (bareSelector : VectorSelector) (trs : timeRanges)
  : list Problem :=
  let bare := VectorSelector_String bareSelector in
  match findRecordingRule entries bare with
  | Some _ => [{| Fragment := bare; Reporter := SeriesCheckName;
                  Text := MsgNoSeriesRecordingRule (uri trs) bare (from trs); Severity_of := Information |}]
  | None => [{| Fragment := bare; Reporter := SeriesCheckName;
                Text := MsgNoSeries (uri trs) bare (from trs); Severity_of := Bug |}]
  end.

(** The high churn test of step 3. *)
Definition isHighChurn (trs : timeRanges) (name : string) : bool :=
  (length (labelValues trs name) =? length (ranges trs))%nat && (avgLife trs <? Z.quot (duration trs) 2).

(** The query of step 3 for the label [name]. *)
Definition labelQuery (selector : VectorSelector) (name : string) : string :=
  let l := stripLabels selector in
  let l := {| vs_Name := vs_Name l;
              vs_LabelMatchers := vs_LabelMatchers l
                                  ++ [{| lm_Type := MatchRegexp; lm_Name := name; lm_Value := ".+" |}] |} in
  count (VectorSelector_String l) +:+ " by (" +:+ name +:+ ")".

(** Step 3, the loop over [labelNames]; it returns [problems] and
    [highChurnLabels]. *)
Fixpoint labelLoop (env : Env) (selector : VectorSelector) (labelNames : list string)
  (problems : list Problem) (highChurnLabels : list string) : M (list Problem * list string) :=
  match labelNames with
  | [] => ret (problems, highChurnLabels)
  | name :: rest =>
      let bareSelector := stripLabels selector in
      r <- serieTimeRanges env (labelQuery selector name) rangeLookback rangeStep;;
      match r with
      | Err e => labelLoop env selector rest
                   (problems ++ [queryProblem env e (VectorSelector_String selector)]) highChurnLabels
      | Ok trsLabelCount =>
          let problems' :=
            match withLabelName trsLabelCount name with
            | [] => problems ++ [{| Fragment := VectorSelector_String selector; Reporter := SeriesCheckName;
                                    Text := MsgNoLabel (uri trsLabelCount) (VectorSelector_String bareSelector)
                                              name (from trsLabelCount);
                                    Severity_of := Bug |}]
            | _ => problems
            end in
          let highChurnLabels' :=
            if isHighChurn trsLabelCount name then highChurnLabels ++ [name] else highChurnLabels in
          labelLoop env selector rest problems' highChurnLabels'
      end
  end.

(** The condition of step 4. *)
Definition metricDisappearanceApplies (trs : timeRanges) : bool :=
  (length (ranges trs) =? 1)%nat
  && negb (from trs + rangeStep <? oldest trs)
  && (newest trs <? until trs - rangeStep).

(** Step 4, once its condition holds. *)
Definition metricDisappearance (env : Env) (selector bareSelector : VectorSelector) (trs : timeRanges)
  (problems : list Problem) : M (list Problem) :=
  p <- getMinAge env selector;;
  let (minAge, ps) := p in
  let problems := problems ++ ps in
  if negb (newest trs <? until trs - minAge) then ret problems
  else ret (problems ++ [{| Fragment := VectorSelector_String bareSelector; Reporter := SeriesCheckName;
                            Text := MsgDisappeared (uri trs) (VectorSelector_String bareSelector) (newest trs);
                            Severity_of := Bug |}]).

(** The condition of step 6: [!trsLabel.oldest().After(trsLabel.until.Add(rangeLookback-1).Add(rangeStep))]
    and [trsLabel.newest().Before(trsLabel.until.Add(rangeStep*-1))]. *)
Definition matcherDisappearanceApplies (trsLabel : timeRanges) : bool :=
  (length (ranges trsLabel) =? 1)%nat
  && negb (until trsLabel + (rangeLookback - 1) + rangeStep <? oldest trsLabel)
  && (newest trsLabel <? until trsLabel - rangeStep).

(** The churn note of step 5: the first high churn label equal to the
    matcher's label. *)
Definition churnOf (highChurnLabels : list string) (name : string) : option string :=
  find (String.eqb name) highChurnLabels.

(** Steps 5 to 7 for one matcher [lm] that is checked (not the metric name,
    an equality or regexp matcher, not ignored). *)
Definition checkMatcher (env : Env) (selector bareSelector : VectorSelector) (metricName : string)
  (trs : timeRanges) (highChurnLabels : list string) (lm : Matcher) (problems : list Problem)
  : M (list Problem) :=
  let labelSelector := {| vs_Name := metricName; vs_LabelMatchers := [lm] |} in
  r <- serieTimeRanges env (count (VectorSelector_String labelSelector)) rangeLookback rangeStep;;
  match r with
  | Err e => ret (problems ++ [queryProblem env e (VectorSelector_String labelSelector)])
  | Ok trsLabel =>
      match ranges trsLabel with
      | [] =>
          (* 5. *)
          let churn := churnOf highChurnLabels (lm_Name lm) in
          let s := match churn with Some _ => Warning | None => Bug end in
          ret (problems ++ [{| Fragment := VectorSelector_String selector; Reporter := SeriesCheckName;
                               Text := MsgNoMatcherSeries (uri trsLabel) (VectorSelector_String bareSelector)
                                         (lm_Name lm) (Matcher_String lm) (from trs) churn;
                               Severity_of := s |}])
      | _ =>
          if matcherDisappearanceApplies trsLabel then
            (* 6. *)
            p <- getMinAge env selector;;
            let (minAge, ps) := p in
            let problems := problems ++ ps in
            if negb (newest trsLabel <? until trsLabel - minAge) then ret problems
            else ret (problems ++ [{| Fragment := VectorSelector_String labelSelector; Reporter := SeriesCheckName;
                                      Text := MsgMatcherDisappeared (uri trs) (VectorSelector_String bareSelector)
                                                (Matcher_String lm) (newest trsLabel);
                                      Severity_of := Bug |}])
          else if (1 <? length (ranges trsLabel))%nat then
            (* 7. *)
            ret (problems ++ [{| Fragment := VectorSelector_String selector; Reporter := SeriesCheckName;
                                 Text := MsgMatcherSometimes (VectorSelector_String bareSelector)
                                           (Matcher_String lm) (uri trs) (avgLife trsLabel);
                                 Severity_of := Warning |}])
          else ret problems
      end
  end.

(** The loop over [selector.LabelMatchers] of steps 5 to 7. *)
Fixpoint matcherLoop (env : Env) (selector bareSelector : VectorSelector) (metricName : string)
  (trs : timeRanges) (highChurnLabels : list string) (lms : list Matcher) (problems : list Problem)
  : M (list Problem) :=
  match lms with
  | [] => ret problems
  | lm :: rest =>
      if String.eqb (lm_Name lm) MetricName
      then matcherLoop env selector bareSelector metricName trs highChurnLabels rest problems
      else if negb (MatchType_eqb (lm_Type lm) MatchEqual) && negb (MatchType_eqb (lm_Type lm) MatchRegexp)
      then matcherLoop env selector bareSelector metricName trs highChurnLabels rest problems
      else
        ignored <- isLabelValueIgnored env selector (lm_Name lm);;
        if ignored
        then matcherLoop env selector bareSelector metricName trs highChurnLabels rest problems
        else
          problems' <- checkMatcher env selector bareSelector metricName trs highChurnLabels lm problems;;
          matcherLoop env selector bareSelector metricName trs highChurnLabels rest problems'
  end.

(** Step 8. *)
Definition metricIntermittency (bareSelector : VectorSelector) (trs : timeRanges) : list Problem :=
  if (1 <? length (ranges trs))%nat
  then [{| Fragment := VectorSelector_String bareSelector; Reporter := SeriesCheckName;
           Text := MsgSometimes (VectorSelector_String bareSelector) (uri trs) (avgLife trs) (from trs);
           Severity_of := Warning |}]
  else [].

(** The body of the loop over the selectors of [Check], for a selector not
    seen before; [problems] is the accumulator of the whole [Check] call
    (the named result of the Go function). *)
Definition checkSelector (env : Env) (entries : list Entry) (selector : VectorSelector)
  (problems : list Problem) : M (list Problem) :=
  let bareSelector := stripLabels selector in
  let c1 := "disable " +:+ selectorKey selector in
  let c2 := "disable " +:+ selectorKey bareSelector in
  d1 <- HasComment env c1;;
  disabled <- (if d1 then ret true else HasComment env c2);;
  if disabled then ret problems else
  let metricName := metricNameOf selector in
  (* 0. *)
  if String.eqb metricName "ALERTS" || String.eqb metricName "ALERTS_FOR_STATE"
  then ret (problems ++ alertsProblems selector entries) else
  let labelNames := filter (fun n => negb (String.eqb n MetricName)) (map lm_Name (vs_LabelMatchers selector)) in
  (* 1. *)
  c <- instantSeriesCount env (count (VectorSelector_String selector));;
  match c with
  | Err e => ret (problems ++ [queryProblem env e (VectorSelector_String selector)])
  | Ok cnt =>
      if 0 <? cnt then ret problems else
      (* 2. *)
      r <- serieTimeRanges env (count (VectorSelector_String bareSelector)) rangeLookback rangeStep;;
      match r with
      | Err e => ret (problems ++ [queryProblem env e (VectorSelector_String bareSelector)])
      | Ok trs =>
          match ranges trs with
          | [] => ret (problems ++ noSeriesProblems entries bareSelector trs)
          | _ =>
              (* 3. *)
              p3 <- labelLoop env selector labelNames problems [];;
              let (problems, highChurnLabels) := p3 in
              match problems with
              | _ :: _ => ret problems
              | [] =>
                  (* 4. *)
                  if metricDisappearanceApplies trs
                  then metricDisappearance env selector bareSelector trs problems
                  else
                    (* 5. to 7. *)
                    problems <- matcherLoop env selector bareSelector metricName trs highChurnLabels
                                  (vs_LabelMatchers selector) problems;;
                    match problems with
                    | _ :: _ => ret problems
                    | [] => ret (problems ++ metricIntermittency bareSelector trs)  (* 8. *)
                    end
              end
          end
      end
  end.

(** The loop over [getSelectors(expr.Query)] with the [done] set. *)
Fixpoint checkSelectors (env : Env) (entries : list Entry) (selectors : list VectorSelector)
  (done : list string) (problems : list Problem) : M (list Problem) :=
  match selectors with
  | [] => ret problems
  | selector :: rest =>
      if existsb (String.eqb (VectorSelector_String selector)) done
      then checkSelectors env entries rest done problems
      else
        problems' <- checkSelector env entries selector problems;;
        checkSelectors env entries rest (VectorSelector_String selector :: done) problems'
  end.

(** [SeriesCheck.Check]. *)
Definition Check (env : Env) (expr : PromQLExpr) (entries : list Entry) : M (list Problem) :=
  if SyntaxError expr then ret []
  else checkSelectors env entries (getSelectors (Query expr)) [] [].

(** ** Concrete inputs

    Backends and comment stores given by tables, used to run the check on
    concrete rules. *)

Fixpoint lookupS {A} (k : string) (tbl : list (string * A)) : option A :=
  match tbl with
  | [] => None
  | (k', v) :: rest => if String.eqb k k' then Some v else lookupS k rest
  end.

Fixpoint lookupKeys {A} (k : list string) (tbl : list (list string * A)) : option A :=
  match tbl with
  | [] => None
  | (k', v) :: rest => if bool_decide (k = k') then Some v else lookupKeys k rest
  end.

Definition noSuchQuery : QueryError := {| qe_msg := "unexpected query" |}.

Definition tableEnv (instant : list (string * result (list Z)))
  (range : list (string * result RangeQueryResult))
  (hasComments : list string) (comments : list (list string * Comment)) : Env :=
  {| prom_Name := "prom";
     prom_Query := fun q => default (Err noSuchQuery) (lookupS q instant);
     prom_RangeQuery := fun q _ _ => default (Err noSuchQuery) (lookupS q range);
     rule_HasComment := fun s => existsb (String.eqb s) hasComments;
     rule_GetComment := fun k => lookupKeys k comments;
     textAndSeverityFromError := textAndSeverityFromError_default |}.

(** Samples every [stepMs] milliseconds, [n] of them, from [startMs]. *)
Definition grid (startMs stepMs : Z) (n : nat) : list Z :=
  map (fun k => startMs + stepMs * Z.of_nat k) (seq 0 n).

(** The window of the examples: the seven days before 2023-11-14 22:13:20 UTC. *)
Definition exUntilMs : Z := 1700000000000.
Definition exFromMs : Z := exUntilMs - 7 * 24 * 3600 * 1000.
Definition stepMs : Z := 5 * 60 * 1000.

Definition window (samples : list SampleStream) : RangeQueryResult :=
  {| qr_URI := "http://prom"; qr_Start := toTime exFromMs; qr_End := toTime exUntilMs;
     qr_Samples := samples |}.

(** A plain selector [name] as the parser builds it. *)
Definition plainSelector (name : string) (lms : list Matcher) : VectorSelector :=
  {| vs_Name := name;
     vs_LabelMatchers := {| lm_Type := MatchEqual; lm_Name := MetricName; lm_Value := name |} :: lms |}.

Definition leaf (vs : VectorSelector) : PromQLNode := mkNode (Some vs) [].

Definition runCheck (env : Env) (expr : PromQLExpr) (entries : list Entry) : list Problem :=
  fst (Check env expr entries []).

(** *** Concrete rules *)

Definition fooSel : VectorSelector := plainSelector "foo" [].
Definition barSel : VectorSelector := plainSelector "bar" [].
Definition exprOf (n : PromQLNode) : PromQLExpr := {| SyntaxError := false; Query := n |}.

(** [foo + bar]: [foo] never had series, [bar] had one series over the
    first six days of the window and disappeared one day ago. *)
Definition envDisappeared : Env :=
  tableEnv [(count "foo", Ok []); (count "bar", Ok [])]
    [(count "foo", Ok (window []));
     (count "bar", Ok (window [{| s_Metric := ∅; s_Values := grid exFromMs stepMs 1728 |}]))]
    [] [].

Definition jobEq (v : string) : Matcher := {| lm_Type := MatchEqual; lm_Name := "job"; lm_Value := v |}.

(** [foo{job="a"}]: [foo] is present over the whole window with
    [job="b"]; [job="a"] appeared three days ago and disappeared a day ago. *)
Definition fooJobA : VectorSelector := plainSelector "foo" [jobEq "a"].

Definition fullWindow (lbls : LabelSet) : SampleStream :=
  {| s_Metric := lbls; s_Values := grid exFromMs stepMs 2016 |}.

Definition envLateMatcher : Env :=
  tableEnv [(count (VectorSelector_String fooJobA), Ok [])]
    [(count "foo", Ok (window [fullWindow ∅]));
     (labelQuery fooJobA "job", Ok (window [fullWindow {[ "job" := "b" ]}]));
     (count (VectorSelector_String {| vs_Name := "foo"; vs_LabelMatchers := [jobEq "a"] |}),
      Ok (window [{| s_Metric := ∅;
                     s_Values := grid (exUntilMs - 3 * 24 * 3600 * 1000) stepMs 576 |}]))]
    [] [].

(** [ALERTS{alertname!="HighLatency"}]. *)
Definition alertsNotHighLatency : VectorSelector :=
  plainSelector "ALERTS" [{| lm_Type := MatchNotEqual; lm_Name := "alertname"; lm_Value := "HighLatency" |}].

Definition emptyEnv : Env := tableEnv [] [] [] [].

(** A rule whose [min-age] comment for [foo] does not parse. *)
Definition badMinAgeComment : Comment := {| cmt_String := "rule/set promql/series(foo) min-age abc"; cmt_Value := "abc" |}.

Definition envBadMinAge : Env :=
  tableEnv [] [] [] [(["rule/set"; "promql/series(foo)"; "min-age"], badMinAgeComment)].

(** [foo{job="a"}] with a selector-specific [min-age] of one hour and a
    bare-selector one of three hours. *)
Definition envMinAge1h : Env :=
  tableEnv [] [] []
    [(["rule/set"; selectorKey (stripLabels fooJobA); "min-age"],
      {| cmt_String := "rule/set promql/series(foo) min-age 3h"; cmt_Value := "3h" |});
     (["rule/set"; selectorKey fooJobA; "min-age"],
      {| cmt_String := "rule/set promql/series(foo{job=a}) min-age 1h"; cmt_Value := "1h" |})].

(** The ranges of [foo] present over the whole window. *)
Definition trsFoo : timeRanges := timeRangesOf (window [fullWindow ∅]) rangeStep.

(** [bar] disappeared an hour ago and the rule's global [min-age]
    comment does not parse. *)
Definition envRecentBadMinAge : Env :=
  tableEnv [(count "bar", Ok [])]
    [(count "bar", Ok (window [{| s_Metric := ∅; s_Values := grid exFromMs stepMs 2004 |}]))]
    []
    [(["rule/set"; "promql/series"; "min-age"],
      {| cmt_String := "rule/set promql/series min-age abc"; cmt_Value := "abc" |})].

(** [foo{job="a",env="b"}]: the query for [job="a"] fails and no series
    ever had [env="b"]. *)
Definition envEq (v : string) : Matcher := {| lm_Type := MatchEqual; lm_Name := "env"; lm_Value := v |}.
Definition fooJobEnv : VectorSelector := plainSelector "foo" [jobEq "a"; envEq "b"].
Definition timeout : QueryError := {| qe_msg := "timeout" |}.

Definition envMatcherError : Env :=
  tableEnv [(count (VectorSelector_String fooJobEnv), Ok [])]
    [(count "foo", Ok (window [fullWindow ∅]));
     (labelQuery fooJobEnv "job", Ok (window [fullWindow {[ "job" := "b" ]}]));
     (labelQuery fooJobEnv "env", Ok (window [fullWindow {[ "env" := "c" ]}]));
     (count (VectorSelector_String {| vs_Name := "foo"; vs_LabelMatchers := [jobEq "a"] |}), Err timeout);
     (count (VectorSelector_String {| vs_Name := "foo"; vs_LabelMatchers := [envEq "b"] |}), Ok (window []))]
    [] [].


(** ** Properties of ranges *)

(** A range that the sample at [ts] of a series with labels [lbls]
    extends. *)
Definition matchesSample (lbls : LabelSet) (ts : Z) (r : timeRange) : Prop :=
  tr_labels r = lbls /\ tr_start r <= ts <= tr_end r.

(** Two half-open ranges [[start, end)] overlap. *)
Definition overlap (a b : timeRange) : Prop :=
  tr_start a < tr_end b /\ tr_start b < tr_end a.

(** Ranges of the same label set are ordered and separated by a gap, and
    no range ends before it starts. *)
Definition separated (rs : list timeRange) : Prop :=
  (forall i j a b, (i < j)%nat -> rs !! i = Some a -> rs !! j = Some b ->
                   tr_labels a = tr_labels b -> tr_end a < tr_start b) /\
  (forall i a, rs !! i = Some a -> tr_start a <= tr_end a).

(** Every range of the series [lbls] starts at or before [t]. *)
Definition startsBefore (lbls : LabelSet) (t : Z) (rs : list timeRange) : Prop :=
  forall a, a ∈ rs -> tr_labels a = lbls -> tr_start a <= t.

Definition labelsIn (P : list LabelSet) (rs : list timeRange) : Prop :=
  forall a, a ∈ rs -> tr_labels a ∈ P.

(** An [alertname] matcher of kind equal or not-equal. *)
Definition isAlertnameMatcher (lm : Matcher) : bool :=
  String.eqb (lm_Name lm) "alertname"
  && (MatchType_eqb (lm_Type lm) MatchEqual || MatchType_eqb (lm_Type lm) MatchNotEqual).

(** The min-age [getMinAge] resolves from the comments found by its
    probes, in probing order: each parsed duration replaces the value. *)
Definition resolveMinAge (cs : list (option Comment)) (dflt : Z) : Z :=
  fold_left (fun v c => match c with
                        | Some cmt => default v (ParseDuration (cmt_Value cmt))
                        | None => v
                        end) cs dflt.

Definition badDurationWarning (cmt : Comment) : Problem :=
  {| Fragment := cmt_String cmt; Reporter := SeriesCheckName;
     Text := MsgBadDuration (cmt_Value cmt); Severity_of := Warning |}.

(** One warning per probe whose comment does not parse. *)
Definition minAgeWarnings (cs : list (option Comment)) : list Problem :=
  flat_map (fun c => match c with
                     | Some cmt => match ParseDuration (cmt_Value cmt) with
                                   | Some _ => []
                                   | None => [badDurationWarning cmt]
                                   end
                     | None => []
                     end) cs.

(** A sample of the series [lbls] at [t] lies in a range of [rs]. *)
Definition covered (rs : list timeRange) (lbls : LabelSet) (t : Z) : Prop :=
  exists r, r ∈ rs /\ tr_labels r = lbls /\ tr_start r <= t < tr_end r.

(** The selectors of a query that [Check] sees for the first time, given
    the printed forms [seen] it has already handled. *)
Fixpoint firstOccurrences (seen : list string) (selectors : list VectorSelector) : list VectorSelector :=
  match selectors with
  | [] => []
  | selector :: rest =>
      if existsb (String.eqb (VectorSelector_String selector)) seen
      then firstOccurrences seen rest
      else selector :: firstOccurrences (VectorSelector_String selector :: seen) rest
  end.

(** [ps] is [problems] followed by findings of this check only. *)
Definition Ext (problems ps : list Problem) : Prop :=
  exists extra, ps = problems ++ extra /\ Forall (fun p => Reporter p = SeriesCheckName) extra.

(** A step whose result, seen through [proj], extends [problems] from
    whatever log it starts with. *)
Definition Appends {A} (proj : A -> list Problem) (problems : list Problem) (m : M A) : Prop :=
  forall log, Ext problems (proj (fst (m log))).

(** A step that only appends to the log, and only events satisfying [P]. *)
Definition LogOnly {A} (P : Event -> Prop) (m : M A) : Prop :=
  forall log, exists evs, snd (m log) = log ++ evs /\ Forall P evs.

(** * Proofs *)

(** ** serieTimeRanges *)

Lemma matchesSample_reflect lbls ts r :
  bool_decide (tr_labels r = lbls) && (tr_start r <=? ts) && (ts <=? tr_end r) = true
  <-> matchesSample lbls ts r.
Proof.
  unfold matchesSample. rewrite !andb_true_iff, bool_decide_eq_true, !Z.leb_le. tauto.
Qed.

Lemma extendRange_spec lbls ts stp rs :
  match extendRange lbls ts stp rs with
  | Some rs' =>
      exists i r, rs !! i = Some r /\ matchesSample lbls ts r /\
        (forall j r', (j < i)%nat -> rs !! j = Some r' -> ~ matchesSample lbls ts r') /\
        rs' = <[i := {| tr_labels := tr_labels r; tr_start := tr_start r; tr_end := ts + stp |}]> rs
  | None => forall r, r ∈ rs -> ~ matchesSample lbls ts r
  end.
Proof.
  induction rs as [|r rest IH]; simpl.
  - intros r Hr. inversion Hr.
  - destruct (bool_decide (tr_labels r = lbls) && (tr_start r <=? ts) && (ts <=? tr_end r)) eqn:Hc.
    + apply matchesSample_reflect in Hc.
      exists 0%nat, r. split; [reflexivity|]. split; [exact Hc|]. split; [|reflexivity].
      intros j r' Hj. lia.
    + assert (Hn : ~ matchesSample lbls ts r).
      { intros Hm. apply matchesSample_reflect in Hm. congruence. }
      destruct (extendRange lbls ts stp rest) as [rs'|]; simpl.
      * destruct IH as (i & r0 & Hi & Hm & Hfirst & ->).
        exists (S i), r0. split; [exact Hi|]. split; [exact Hm|]. split; [|reflexivity].
        intros [|j] r' Hj Hj'; simpl in Hj'.
        -- injection Hj' as <-. exact Hn.
        -- apply (Hfirst j); [lia | exact Hj'].
      * intros r' Hr'. apply elem_of_cons in Hr' as [->|Hr']; [exact Hn | exact (IH r' Hr')].
Qed.

Lemma addSample_separated lbls stp rs ms t :
  0 <= stp -> separated rs -> startsBefore lbls t rs -> t <= toTime ms ->
  separated (addSample lbls stp rs ms) /\ startsBefore lbls (toTime ms) (addSample lbls stp rs ms).
Proof.
  intros Hstp [Hsep Hle] Hbefore Hts. unfold addSample.
  pose proof (extendRange_spec lbls (toTime ms) stp rs) as Hspec.
  destruct (extendRange lbls (toTime ms) stp rs) as [rs'|].
  - destruct Hspec as (i & r & Hi & [Hl Hr] & _ & ->).
    (* no later range of the series: it would start after [r] ends *)
    assert (Hlast : forall j b, (i < j)%nat -> rs !! j = Some b -> tr_labels b = lbls -> False).
    { intros j b Hij Hj Hb.
      pose proof (Hsep i j r b Hij Hi Hj ltac:(congruence)).
      pose proof (Hbefore b (list_elem_of_lookup_2 _ _ _ Hj) Hb). lia. }
    split; [split|].
    + intros i' j' a b Hij Ha Hb Hab.
      apply list_lookup_insert_Some in Ha as [(<- & <- & _)|(Hi' & Ha)];
      apply list_lookup_insert_Some in Hb as [(<- & <- & _)|(Hj' & Hb)]; simpl in *.
      * lia.
      * exfalso. apply (Hlast j' b Hij Hb). congruence.
      * apply (Hsep i' i a r Hij Ha Hi). congruence.
      * apply (Hsep i' j' a b Hij Ha Hb Hab).
    + intros i' a Ha.
      apply list_lookup_insert_Some in Ha as [(<- & <- & _)|(_ & Ha)]; simpl.
      * lia.
      * apply (Hle i' a Ha).
    + intros a Ha Hal. apply list_elem_of_lookup_1 in Ha as [k Hk].
      apply list_lookup_insert_Some in Hk as [(<- & <- & _)|(_ & Hk)]; simpl.
      * lia.
      * pose proof (Hbefore a (list_elem_of_lookup_2 _ _ _ Hk) Hal). lia.
  - split; [split|].
    + intros i' j' a b Hij Ha Hb Hab.
      apply lookup_app_Some in Ha as [Ha|(Hi' & Ha)];
      apply lookup_app_Some in Hb as [Hb|(Hj' & Hb)].
      * apply (Hsep i' j' a b Hij Ha Hb Hab).
      * apply list_lookup_singleton_Some in Hb as [_ <-]. simpl in *.
        pose proof (Hspec a (list_elem_of_lookup_2 _ _ _ Ha)) as Hn.
        pose proof (Hbefore a (list_elem_of_lookup_2 _ _ _ Ha) Hab).
        assert (~ (tr_start a <= toTime ms <= tr_end a)) by (intros ?; apply Hn; split; assumption).
        lia.
      * apply lookup_lt_Some in Hb. lia.
      * apply list_lookup_singleton_Some in Ha as [? _].
        apply list_lookup_singleton_Some in Hb as [? _]. lia.
    + intros i' a Ha. apply lookup_app_Some in Ha as [Ha|(_ & Ha)].
      * apply (Hle i' a Ha).
      * apply list_lookup_singleton_Some in Ha as [_ <-]. simpl. lia.
    + intros a Ha Hal. apply elem_of_app in Ha as [Ha|Ha].
      * pose proof (Hbefore a Ha Hal). lia.
      * apply list_elem_of_singleton in Ha as ->. simpl. lia.
Qed.

Lemma addSample_labels Q lbls stp rs ms :
  labelsIn Q rs -> lbls ∈ Q -> labelsIn Q (addSample lbls stp rs ms).
Proof.
  intros HQ Hl a Ha. unfold addSample in Ha.
  pose proof (extendRange_spec lbls (toTime ms) stp rs) as Hspec.
  destruct (extendRange lbls (toTime ms) stp rs) as [rs'|].
  - destruct Hspec as (i & r & Hi & [Hrl _] & _ & ->).
    apply list_elem_of_lookup_1 in Ha as [k Hk].
    apply list_lookup_insert_Some in Hk as [(_ & <- & _)|(_ & Hk)]; simpl.
    + rewrite Hrl. exact Hl.
    + apply HQ, (list_elem_of_lookup_2 _ _ _ Hk).
  - apply elem_of_app in Ha as [Ha|Ha].
    + apply HQ, Ha.
    + apply list_elem_of_singleton in Ha as ->. exact Hl.
Qed.

Lemma fold_addSample_separated lbls stp vs rs t :
  0 <= stp -> separated rs -> startsBefore lbls t rs ->
  Forall (fun ms => t <= toTime ms) vs -> StronglySorted Z.le vs ->
  separated (fold_left (addSample lbls stp) vs rs).
Proof.
  revert rs t. induction vs as [|ms vs IH]; intros rs t Hstp Hsep Hbefore Hge Hsorted; simpl.
  - exact Hsep.
  - apply Forall_cons in Hge as [Hms _].
    apply StronglySorted_inv in Hsorted as [Hsorted Hrest].
    destruct (addSample_separated lbls stp rs ms t Hstp Hsep Hbefore Hms) as [Hsep' Hbefore'].
    apply (IH _ (toTime ms) Hstp Hsep' Hbefore'); [|exact Hsorted].
    eapply Forall_impl; [exact Hrest|]. intros x Hx. unfold toTime. lia.
Qed.

Lemma fold_addSample_labels Q lbls stp vs rs :
  labelsIn Q rs -> lbls ∈ Q -> labelsIn Q (fold_left (addSample lbls stp) vs rs).
Proof.
  revert rs. induction vs as [|ms vs IH]; intros rs HQ Hl; simpl.
  - exact HQ.
  - apply IH; [apply addSample_labels|]; assumption.
Qed.

Lemma buildRanges_separated stp samples rs P :
  0 <= stp -> separated rs -> labelsIn P rs ->
  NoDup (map s_Metric samples) -> (forall s, s ∈ samples -> s_Metric s ∉ P) ->
  Forall (fun s => StronglySorted Z.le (s_Values s)) samples ->
  separated (buildRanges stp samples rs).
Proof.
  unfold buildRanges. revert rs P.
  induction samples as [|s samples IH]; intros rs P Hstp Hsep HP Hnodup Hfresh Hsorted; simpl.
  - exact Hsep.
  - simpl in Hnodup. apply NoDup_cons in Hnodup as [Hnotin Hnodup].
    apply Forall_cons in Hsorted as [Hs Hsorted].
    apply (IH _ (s_Metric s :: P) Hstp).
    + (* the series' label set is fresh, so every range starts before its first sample *)
      set (t := match s_Values s with [] => 0 | v :: _ => toTime v end).
      apply (fold_addSample_separated _ _ _ _ t Hstp Hsep).
      * intros a Ha Hal. exfalso. apply (Hfresh s (list_elem_of_here _ _)).
        rewrite <- Hal. apply HP, Ha.
      * unfold t. destruct (s_Values s) as [|v vs]; [constructor|].
        apply StronglySorted_inv in Hs as [_ Hv]. constructor; [lia|].
        eapply Forall_impl; [exact Hv|]. intros x Hx. unfold toTime. lia.
      * exact Hs.
    + apply fold_addSample_labels; [|apply list_elem_of_here].
      intros a Ha. apply list_elem_of_further, HP, Ha.
    + exact Hnodup.
    + intros s' Hs' Hin. apply elem_of_cons in Hin as [Hin|Hin].
      * apply Hnotin. rewrite <- Hin. apply list_elem_of_In, in_map, list_elem_of_In, Hs'.
      * apply (Hfresh s' (list_elem_of_further _ _ _ Hs') Hin).
    + exact Hsorted.
Qed.

(** Settles the comparisons of a symbolic run of [serieTimeRanges]. *)
Ltac settle_ranges :=
  unfold toTime;
  repeat (simpl; match goal with
    | |- context [bool_decide (?x = ?x)] => rewrite (bool_decide_true (x = x)) by reflexivity
    | |- context [?a <=? ?b] => destruct (Z.leb_spec a b); try lia
    end);
  simpl; repeat f_equal; lia.

(** C4: [serieTimeRanges] extends the first range of the same label set
    with [start <= ts <= end] to [[start, ts + step)] and otherwise opens
    [[ts, ts + step)]; samples at [t], [t + step], [t + 2*step] give the one
    range [[t, t + 3*step)], and a further sample at [t + 5*step] opens a
    new range; for time-ordered series with distinct label sets, no two
    ranges of the same label set overlap. *)
Theorem serieTimeRanges_coalesce (k : Z) (Hk : 0 < k) :
  (forall lbls stp rs ms,
     (exists i r, rs !! i = Some r /\ matchesSample lbls (toTime ms) r /\
        (forall j r', (j < i)%nat -> rs !! j = Some r' -> ~ matchesSample lbls (toTime ms) r') /\
        addSample lbls stp rs ms
          = <[i := {| tr_labels := tr_labels r; tr_start := tr_start r; tr_end := toTime ms + stp |}]> rs)
     \/ ((forall r, r ∈ rs -> ~ matchesSample lbls (toTime ms) r) /\
         addSample lbls stp rs ms
           = rs ++ [{| tr_labels := lbls; tr_start := toTime ms; tr_end := toTime ms + stp |}])) /\
  (forall u f e lbls t,
     ranges (timeRangesOf {| qr_URI := u; qr_Start := f; qr_End := e;
               qr_Samples := [{| s_Metric := lbls; s_Values := [t; t + k; t + 2 * k] |}] |} (toTime k))
       = [{| tr_labels := lbls; tr_start := toTime t; tr_end := toTime (t + 3 * k) |}] /\
     ranges (timeRangesOf {| qr_URI := u; qr_Start := f; qr_End := e;
               qr_Samples := [{| s_Metric := lbls; s_Values := [t; t + k; t + 2 * k; t + 5 * k] |}] |} (toTime k))
       = [{| tr_labels := lbls; tr_start := toTime t; tr_end := toTime (t + 3 * k) |};
          {| tr_labels := lbls; tr_start := toTime (t + 5 * k); tr_end := toTime (t + 6 * k) |}]) /\
  (forall qr, NoDup (map s_Metric (qr_Samples qr)) ->
     Forall (fun s => StronglySorted Z.le (s_Values s)) (qr_Samples qr) ->
     forall i j a b, i <> j ->
       ranges (timeRangesOf qr (toTime k)) !! i = Some a ->
       ranges (timeRangesOf qr (toTime k)) !! j = Some b ->
       tr_labels a = tr_labels b -> ~ overlap a b).
Proof.
  split; [|split].
  - intros lbls stp rs ms. unfold addSample.
    pose proof (extendRange_spec lbls (toTime ms) stp rs) as Hspec.
    destruct (extendRange lbls (toTime ms) stp rs) as [rs'|].
    + left. destruct Hspec as (i & r & Hi & Hm & Hfirst & ->). exists i, r. auto.
    + right. auto.
  - intros u f e lbls t. unfold timeRangesOf, buildRanges, addSample; simpl.
    split; settle_ranges.
  - intros qr Hnodup Hsorted i j a b Hij Ha Hb Hab.
    assert (Hsep : separated (ranges (timeRangesOf qr (toTime k)))).
    { apply (buildRanges_separated _ _ [] []).
      - unfold toTime. lia.
      - split; intros ? ?; rewrite lookup_nil; discriminate.
      - intros ? Hin. inversion Hin.
      - exact Hnodup.
      - intros ? _ Hin. inversion Hin.
      - exact Hsorted. }
    destruct Hsep as [Hsep Hle]. unfold overlap.
    pose proof (Hle i a Ha). pose proof (Hle j b Hb).
    destruct (Nat.lt_ge_cases i j) as [Hlt|Hge].
    + pose proof (Hsep i j a b Hlt Ha Hb Hab). lia.
    + assert (j < i)%nat by lia.
      pose proof (Hsep j i b a ltac:(lia) Hb Ha (eq_sym Hab)). lia.
Qed.

Lemma serieTimeRanges_coalesce_witness :
  0 < 300000 /\
  ranges (timeRangesOf {| qr_URI := "http://prom"; qr_Start := 0; qr_End := 0;
            qr_Samples := [{| s_Metric := ∅; s_Values := [1000; 1000 + 300000; 1000 + 2 * 300000] |}] |}
            (toTime 300000))
    = [{| tr_labels := ∅; tr_start := toTime 1000; tr_end := toTime (1000 + 3 * 300000) |}].
Proof.
  split; [lia|].
  exact (proj1 (proj1 (proj2 (serieTimeRanges_coalesce 300000 ltac:(lia))) "http://prom" 0 0 ∅ 1000)).
Defined.

(** ** Check *)

(** C10: on an expression with a syntax error, [Check] returns no problem
    and makes no call to the backend or to the comment store. *)
Theorem Check_syntax_error (env : Env) (expr : PromQLExpr) (entries : list Entry) (log : list Event) :
  SyntaxError expr = true -> Check env expr entries log = ([], log).
Proof. intros H. unfold Check. rewrite H. reflexivity. Qed.

Lemma Check_syntax_error_witness :
  SyntaxError {| SyntaxError := true; Query := leaf fooSel |} = true /\
  Check emptyEnv {| SyntaxError := true; Query := leaf fooSel |} [] [] = ([], []).
Proof. split; [reflexivity|]. apply Check_syntax_error. reflexivity. Defined.

(** C1 (defect): the guard after step 3 tests every problem found so far
    by the [Check] call, not only those of the selector. On its own, [bar]
    (present for the first six days of the window, gone for a day) gets the
    step 4 "no longer present" bug; in [foo + bar], the bug found for [foo]
    in step 2 makes [Check] skip steps 4 to 8 for [bar]. *)
Theorem Check_step3_guard_counts_other_selectors :
  runCheck envDisappeared (exprOf (leaf barSel)) [] =
    [{| Fragment := "bar"; Reporter := SeriesCheckName;
        Text := MsgDisappeared "http://prom" "bar" (toTime (exFromMs + 1728 * stepMs)); Severity_of := Bug |}] /\
  runCheck envDisappeared (exprOf (mkNode None [leaf fooSel; leaf barSel])) [] =
    [{| Fragment := "foo"; Reporter := SeriesCheckName;
        Text := MsgNoSeries "http://prom" "foo" (toTime exFromMs); Severity_of := Bug |}].
Proof. split; vm_compute; reflexivity. Qed.

(** C2 (defect): the window test of step 6 compares the start of the
    matcher's only range with [until + lookback - 1ns + step] instead of the
    window start, so it always holds. For [foo{job="a"}], whose only range
    starts three days before the window end and ends a day before it, step 6
    reports that the matcher is no longer present. *)
Theorem Check_step6_late_start_reported :
  runCheck envLateMatcher (exprOf (leaf fooJobA)) [] =
    [{| Fragment := VectorSelector_String {| vs_Name := "foo"; vs_LabelMatchers := [jobEq "a"] |};
        Reporter := SeriesCheckName;
        Text := MsgMatcherDisappeared "http://prom" "foo" (Matcher_String (jobEq "a"))
                  (toTime (exUntilMs - 24 * 3600 * 1000));
        Severity_of := Bug |}].
Proof. vm_compute. reflexivity. Qed.

(** C3 (counterexample): [ALERTS{alertname!="HighLatency"}] is cross-checked
    against the alerting rules like an equality matcher, and with no rule
    named [HighLatency] it gets a bug. *)
Lemma Check_alerts_not_equal_alertname :
  runCheck emptyEnv (exprOf (leaf alertsNotHighLatency)) [] =
    [{| Fragment := VectorSelector_String alertsNotHighLatency; Reporter := SeriesCheckName;
        Text := MsgAlertMissing (VectorSelector_String alertsNotHighLatency) "HighLatency";
        Severity_of := Bug |}].
Proof. vm_compute. reflexivity. Qed.

Lemma fold_left_last {A B} (p : A -> bool) (v : A -> B) (l : list A) (b : B) :
  fold_left (fun acc x => if p x then v x else acc) l b
  = match last (filter p l) with Some x => v x | None => b end.
Proof.
  revert b. induction l as [|x l IH]; intros b; simpl; [reflexivity|].
  rewrite IH. destruct (p x) eqn:Hp.
  - rewrite filter_cons_True by (rewrite Hp; reflexivity).
    change (x :: filter p l) with ([x] ++ filter p l). rewrite last_app.
    destruct (last (filter p l)); reflexivity.
  - rewrite filter_cons_False by (rewrite Hp; intros Hf; exact Hf). reflexivity.
Qed.

Lemma fold_left_pointwise {A B} (f g : A -> B -> A) (l : list B) (a : A) :
  (forall a x, f a x = g a x) -> fold_left f l a = fold_left g l a.
Proof.
  intros Hfg. revert a. induction l as [|x l IH]; intros a; simpl; [reflexivity|].
  rewrite Hfg. apply IH.
Qed.

Lemma alertnameOf_last (selector : VectorSelector) :
  alertnameOf selector
  = match last (filter isAlertnameMatcher (vs_LabelMatchers selector)) with
    | Some lm => lm_Value lm | None => "" end.
Proof.
  unfold alertnameOf.
  rewrite <- (fold_left_last isAlertnameMatcher lm_Value).
  apply fold_left_pointwise. intros a lm. unfold isAlertnameMatcher.
  destruct (String.eqb (lm_Name lm) "alertname"), (lm_Type lm); reflexivity.
Qed.

Lemma find_existsb {A B} (f : A -> bool) (l : list A) (x y : B) :
  match find f l with Some _ => x | None => y end = if existsb f l then x else y.
Proof. induction l as [|a l IH]; simpl; [reflexivity|]. destruct (f a); auto. Qed.

(** C3 (amended): for a selector on [ALERTS] or [ALERTS_FOR_STATE] the check
    only reads the two disable comments, never the backend; unless disabled,
    it takes the value of the last [alertname] matcher of kind equal or
    not-equal, and when that value is not empty adds one finding:
    information when a non-erroring alerting rule has that name, a bug
    otherwise. Without such a value (no [alertname] matcher, only regexp
    ones, or an empty value) it adds nothing. *)
Theorem checkSelector_alerts (env : Env) (entries : list Entry) (selector : VectorSelector)
  (problems : list Problem) (log : list Event) :
  metricNameOf selector = "ALERTS" \/ metricNameOf selector = "ALERTS_FOR_STATE" ->
  let disabled := rule_HasComment env ("disable " +:+ selectorKey selector)
                  || rule_HasComment env ("disable " +:+ selectorKey (stripLabels selector)) in
  let alertname := match last (filter isAlertnameMatcher (vs_LabelMatchers selector)) with
                   | Some lm => lm_Value lm | None => "" end in
  (exists evs, snd (checkSelector env entries selector problems log) = log ++ evs /\
               Forall (fun ev => exists s, ev = EvHasComment s) evs) /\
  fst (checkSelector env entries selector problems log) =
    problems ++
      (if disabled || String.eqb alertname "" then []
       else if existsb (isAlertingRuleNamed alertname) entries
       then [{| Fragment := VectorSelector_String selector; Reporter := SeriesCheckName;
                Text := MsgAlertFound (VectorSelector_String selector) alertname;
                Severity_of := Information |}]
       else [{| Fragment := VectorSelector_String selector; Reporter := SeriesCheckName;
                Text := MsgAlertMissing (VectorSelector_String selector) alertname;
                Severity_of := Bug |}]).
Proof.
  intros Hname disabled alertname.
  assert (Halerts : (String.eqb (metricNameOf selector) "ALERTS"
                     || String.eqb (metricNameOf selector) "ALERTS_FOR_STATE") = true).
  { destruct Hname as [-> | ->]; reflexivity. }
  unfold checkSelector, bind, HasComment, ret, disabled.
  destruct (rule_HasComment env ("disable " +:+ selectorKey selector)); simpl.
  - split; [eexists; split; [reflexivity|] | symmetry; apply app_nil_r].
    repeat constructor; eauto.
  - destruct (rule_HasComment env ("disable " +:+ selectorKey (stripLabels selector))); simpl.
    + split; [eexists; split; [rewrite <- app_assoc; reflexivity|] | symmetry; apply app_nil_r].
      repeat constructor; eauto.
    + rewrite Halerts. simpl.
      split; [eexists; split; [rewrite <- app_assoc; reflexivity|] |].
      * repeat constructor; eauto.
      * f_equal. unfold alertsProblems, findAlertingRule.
        rewrite alertnameOf_last. fold alertname.
        destruct (String.eqb alertname ""); [reflexivity|].
        apply find_existsb.
Qed.

Lemma checkSelector_alerts_witness :
  (metricNameOf alertsNotHighLatency = "ALERTS" \/ metricNameOf alertsNotHighLatency = "ALERTS_FOR_STATE") /\
  fst (checkSelector emptyEnv [] alertsNotHighLatency [] [])
  = [{| Fragment := VectorSelector_String alertsNotHighLatency; Reporter := SeriesCheckName;
        Text := MsgAlertMissing (VectorSelector_String alertsNotHighLatency) "HighLatency";
        Severity_of := Bug |}].
Proof.
  split; [left; reflexivity|].
  exact (proj2 (checkSelector_alerts emptyEnv [] alertsNotHighLatency [] [] (or_introl eq_refl))).
Defined.

(** ** High churn labels *)






(** ** getMinAge *)

Lemma probeMinAge_spec (env : Env) (keys : list (list string)) (v : Z) (ps : list Problem) (log : list Event) :
  probeMinAge env keys v ps log =
    ((resolveMinAge (map (rule_GetComment env) keys) v,
      ps ++ minAgeWarnings (map (rule_GetComment env) keys)),
     log ++ map EvGetComment keys).
Proof.
  revert v ps log. induction keys as [|k keys IH]; intros v ps log; simpl.
  - rewrite !app_nil_r. reflexivity.
  - unfold bind, GetComment.
    destruct (rule_GetComment env k) as [cmt|]; simpl;
      [destruct (ParseDuration (cmt_Value cmt)) as [d|]|]; rewrite IH, <- !app_assoc; reflexivity.
Qed.

Lemma getMinAge_spec (env : Env) (selector : VectorSelector) (log : list Event) :
  getMinAge env selector log =
    ((resolveMinAge (map (rule_GetComment env) (minAgeKeys selector)) (2 * 3600 * Second),
      minAgeWarnings (map (rule_GetComment env) (minAgeKeys selector))),
     log ++ map EvGetComment (minAgeKeys selector)).
Proof. unfold getMinAge. rewrite probeMinAge_spec. reflexivity. Qed.

(** C6 (counterexample): for [foo], a selector without label matchers, the
    bare-selector key and the selector key of [getMinAge] are the same, so
    one unparsable [min-age] comment on [promql/series(foo)] is probed twice
    and gives two warnings. *)
Lemma getMinAge_duplicate_warning :
  selectorKey (stripLabels fooSel) = selectorKey fooSel /\
  getMinAge envBadMinAge fooSel [] =
    ((2 * 3600 * Second, [badDurationWarning badMinAgeComment; badDurationWarning badMinAgeComment]),
     map EvGetComment (minAgeKeys fooSel)).
Proof. split; vm_compute; reflexivity. Qed.

(** C6 (amended): [getMinAge] starts from two hours and probes, in order,
    the reporter-global, bare-selector and selector-specific [min-age]
    keys (one lookup each, also when the last two keys are the same); every
    probe whose comment parses as a duration replaces the value, so a
    parsed selector-specific comment wins over the other two and a parsed
    bare-selector one over the global one; every probe whose comment does
    not parse adds one warning and keeps the value; it never fails. *)
Theorem getMinAge_resolution (env : Env) (selector : VectorSelector) (log : list Event) :
  getMinAge env selector log =
    ((resolveMinAge (map (rule_GetComment env) (minAgeKeys selector)) (2 * 3600 * Second),
      minAgeWarnings (map (rule_GetComment env) (minAgeKeys selector))),
     log ++ map EvGetComment (minAgeKeys selector)) /\
  (forall cmt d, rule_GetComment env ["rule/set"; selectorKey selector; "min-age"] = Some cmt ->
     ParseDuration (cmt_Value cmt) = Some d -> fst (fst (getMinAge env selector log)) = d) /\
  (forall cmt d, rule_GetComment env ["rule/set"; selectorKey (stripLabels selector); "min-age"] = Some cmt ->
     ParseDuration (cmt_Value cmt) = Some d ->
     (forall c, rule_GetComment env ["rule/set"; selectorKey selector; "min-age"] = Some c ->
        ParseDuration (cmt_Value c) = None) ->
     fst (fst (getMinAge env selector log)) = d).
Proof.
  assert (Hspec : getMinAge env selector log =
    ((resolveMinAge (map (rule_GetComment env) (minAgeKeys selector)) (2 * 3600 * Second),
      minAgeWarnings (map (rule_GetComment env) (minAgeKeys selector))),
     log ++ map EvGetComment (minAgeKeys selector))).
  { apply getMinAge_spec. }
  split; [exact Hspec|]. rewrite Hspec. simpl. unfold resolveMinAge. simpl. split.
  - intros cmt d Hc Hd. rewrite Hc. simpl. rewrite Hd. reflexivity.
  - intros cmt d Hc Hd Hsel. rewrite Hc. simpl. rewrite Hd.
    destruct (rule_GetComment env ["rule/set"; selectorKey selector; "min-age"]) as [c|] eqn:Hs; simpl.
    + rewrite (Hsel c eq_refl). reflexivity.
    + reflexivity.
Qed.

Lemma getMinAge_resolution_witness :
  fst (fst (getMinAge envMinAge1h fooJobA [])) = 3600 * Second.
Proof.
  apply (proj1 (proj2 (getMinAge_resolution envMinAge1h fooJobA []))
           {| cmt_String := "rule/set promql/series(foo{job=a}) min-age 1h"; cmt_Value := "1h" |});
    vm_compute; reflexivity.
Defined.

(** ** Step 4 *)

(** C7 (counterexample): [bar] disappeared an hour ago, within the default
    two hours, and the rule's global [min-age] comment does not parse: the
    check reports the warning of [getMinAge], not nothing. *)
Lemma Check_recent_disappearance_bad_min_age :
  runCheck envRecentBadMinAge (exprOf (leaf barSel)) [] =
    [badDurationWarning {| cmt_String := "rule/set promql/series min-age abc"; cmt_Value := "abc" |}].
Proof. vm_compute. reflexivity. Qed.

Lemma labelLoop_no_problems (env : Env) (selector : VectorSelector) (names : list string)
  (problems : list Problem) (hc : list string) (log : list Event) :
  (forall name, In name names -> exists qr,
     prom_RangeQuery env (labelQuery selector name) rangeLookback rangeStep = Ok qr /\
     withLabelName (timeRangesOf qr rangeStep) name <> []) ->
  fst (fst (labelLoop env selector names problems hc log)) = problems.
Proof.
  revert problems hc log. induction names as [|name names IH]; intros problems hc log Hq; simpl.
  - reflexivity.
  - unfold bind at 1, serieTimeRanges, bind at 1, promRangeQuery.
    destruct (Hq name (or_introl eq_refl)) as (qr & Hqr & Hw). rewrite Hqr. simpl.
    destruct (withLabelName (timeRangesOf qr rangeStep) name) eqn:Hwl; [congruence|].
    apply IH. intros n Hn. apply Hq. right. exact Hn.
Qed.

(** C7 (amended): when step 4 is reached (the selector is not disabled,
    not on [ALERTS], returns nothing now, every label query of step 3 finds
    the label, no earlier selector has a finding) and applies (one range of
    the bare metric, starting at most one step after window-open and ending
    more than one step before window-close), the selector's findings are the
    warnings of [getMinAge] for unparsable [min-age] comments, followed, if
    the range ended more than min-age before the window end, by exactly one
    bug telling when the metric was last present; otherwise by nothing. *)
Theorem checkSelector_metric_disappearance (env : Env) (entries : list Entry)
  (selector : VectorSelector) (log : list Event) (vals : list Z) (qr : RangeQueryResult) :
  rule_HasComment env ("disable " +:+ selectorKey selector) = false ->
  rule_HasComment env ("disable " +:+ selectorKey (stripLabels selector)) = false ->
  String.eqb (metricNameOf selector) "ALERTS" || String.eqb (metricNameOf selector) "ALERTS_FOR_STATE" = false ->
  prom_Query env (count (VectorSelector_String selector)) = Ok vals -> sumZ vals <= 0 ->
  prom_RangeQuery env (count (VectorSelector_String (stripLabels selector))) rangeLookback rangeStep = Ok qr ->
  (forall name, In name (filter (fun n => negb (String.eqb n MetricName)) (map lm_Name (vs_LabelMatchers selector))) ->
     exists qrl, prom_RangeQuery env (labelQuery selector name) rangeLookback rangeStep = Ok qrl /\
       withLabelName (timeRangesOf qrl rangeStep) name <> []) ->
  metricDisappearanceApplies (timeRangesOf qr rangeStep) = true ->
  let trs := timeRangesOf qr rangeStep in
  let cs := map (rule_GetComment env) (minAgeKeys selector) in
  fst (checkSelector env entries selector [] log) =
    minAgeWarnings cs ++
      (if newest trs <? until trs - resolveMinAge cs (2 * 3600 * Second)
       then [{| Fragment := VectorSelector_String (stripLabels selector); Reporter := SeriesCheckName;
                Text := MsgDisappeared (uri trs) (VectorSelector_String (stripLabels selector)) (newest trs);
                Severity_of := Bug |}]
       else []).
Proof.
  intros Hd1 Hd2 Halerts Hq Hcount Hqr Hlabels Happ trs cs.
  unfold checkSelector, bind, HasComment, ret. rewrite Hd1. simpl. rewrite Hd2. simpl.
  rewrite Halerts. unfold instantSeriesCount, promQuery, bind, ret. rewrite Hq. simpl.
  destruct (Z.ltb_spec 0 (sumZ vals)) as [Hlt|_]; [lia|].
  unfold serieTimeRanges, promRangeQuery, bind, ret. rewrite Hqr. simpl.
  assert (Hne : buildRanges rangeStep (qr_Samples qr) [] <> []).
  { intros He. unfold metricDisappearanceApplies, timeRangesOf in Happ. simpl in Happ.
    rewrite He in Happ. discriminate. }
  destruct (buildRanges rangeStep (qr_Samples qr) []) as [|r rs] eqn:Hr; [congruence|].
  cbv beta.
  match goal with
  | |- context [labelLoop env selector ?names [] [] ?l] =>
      pose proof (labelLoop_no_problems env selector names [] [] l Hlabels) as Hnone;
      destruct (labelLoop env selector names [] [] l) as [[ps hc] log2]
  end.
  simpl in Hnone. subst ps. rewrite Happ.
  unfold metricDisappearance, bind, ret. rewrite getMinAge_spec. cbv beta iota zeta.
  subst trs cs.
  destruct (newest _ <? _); simpl; rewrite ?app_nil_r; reflexivity.
Qed.

Lemma checkSelector_metric_disappearance_witness :
  fst (checkSelector envRecentBadMinAge [] barSel [] []) =
    [badDurationWarning {| cmt_String := "rule/set promql/series min-age abc"; cmt_Value := "abc" |}].
Proof.
  pose proof (checkSelector_metric_disappearance envRecentBadMinAge [] barSel [] []
                (window [{| s_Metric := ∅; s_Values := grid exFromMs stepMs 2004 |}])
                ltac:(vm_compute; reflexivity) ltac:(vm_compute; reflexivity)
                ltac:(vm_compute; reflexivity) ltac:(vm_compute; reflexivity)
                ltac:(vm_compute; discriminate) ltac:(vm_compute; reflexivity)
                ltac:(intros name Hin; vm_compute in Hin; contradiction)
                ltac:(vm_compute; reflexivity)) as H.
  cbv zeta in H. rewrite H. vm_compute. reflexivity.
Defined.

Lemma churnOf_existsb (hc : list string) (name : string) :
  churnOf hc name = if existsb (String.eqb name) hc then Some name else None.
Proof.
  unfold churnOf. induction hc as [|x hc IH]; simpl; [reflexivity|].
  destruct (String.eqb_spec name x) as [->|_]; [reflexivity|exact IH].
Qed.

(** C8: the high churn labels found in step 3 only matter to step 5.
    When the single-matcher query of a matcher fails or finds a range,
    [checkMatcher] (steps 6 and 7) does the same whatever the high churn
    labels; when it finds no range, the step 5 finding is a warning that
    names the label if the label was flagged, a bug with no churn note
    otherwise; and the step 8 finding is always a warning. *)
Theorem checkMatcher_churn_only_step5 (env : Env) (selector bareSelector : VectorSelector)
  (metricName : string) (trs : timeRanges) (lm : Matcher) (problems : list Problem) (log : list Event) :
  let q := count (VectorSelector_String {| vs_Name := metricName; vs_LabelMatchers := [lm] |}) in
  ((forall qr, prom_RangeQuery env q rangeLookback rangeStep = Ok qr -> ranges (timeRangesOf qr rangeStep) <> []) ->
   forall hc1 hc2, checkMatcher env selector bareSelector metricName trs hc1 lm problems log
                 = checkMatcher env selector bareSelector metricName trs hc2 lm problems log) /\
  (forall qr hc, prom_RangeQuery env q rangeLookback rangeStep = Ok qr -> ranges (timeRangesOf qr rangeStep) = [] ->
     fst (checkMatcher env selector bareSelector metricName trs hc lm problems log) =
       problems ++ [{| Fragment := VectorSelector_String selector; Reporter := SeriesCheckName;
                       Text := MsgNoMatcherSeries (qr_URI qr) (VectorSelector_String bareSelector) (lm_Name lm)
                                 (Matcher_String lm) (from trs)
                                 (if existsb (String.eqb (lm_Name lm)) hc then Some (lm_Name lm) else None);
                       Severity_of := if existsb (String.eqb (lm_Name lm)) hc then Warning else Bug |}]) /\
  (forall p, In p (metricIntermittency bareSelector trs) -> Severity_of p = Warning).
Proof.
  intros q. split; [|split].
  - intros Hne hc1 hc2. unfold checkMatcher, bind, serieTimeRanges, promRangeQuery, bind, ret.
    fold q. destruct (prom_RangeQuery env q rangeLookback rangeStep) as [qr|e] eqn:Hq; [|reflexivity].
    specialize (Hne qr eq_refl). cbv beta iota.
    destruct (ranges (timeRangesOf qr rangeStep)) as [|r rs]; [congruence|reflexivity].
  - intros qr hc Hq He. unfold checkMatcher, bind, serieTimeRanges, promRangeQuery, bind, ret.
    fold q. rewrite Hq. cbv beta iota. rewrite He. simpl. rewrite churnOf_existsb.
    destruct (existsb (String.eqb (lm_Name lm)) hc); reflexivity.
  - intros p. unfold metricIntermittency.
    destruct (1 <? length (ranges trs))%nat; simpl; [|tauto].
    intros [<-|[]]. reflexivity.
Qed.

Lemma checkMatcher_churn_only_step5_witness :
  fst (checkMatcher envMatcherError fooJobEnv (stripLabels fooJobEnv) "foo" trsFoo ["env"] (envEq "b") [] []) =
    [{| Fragment := VectorSelector_String fooJobEnv; Reporter := SeriesCheckName;
        Text := MsgNoMatcherSeries "http://prom" "foo" "env" (Matcher_String (envEq "b")) (toTime exFromMs)
                  (Some "env");
        Severity_of := Warning |}].
Proof.
  pose proof (proj1 (proj2 (checkMatcher_churn_only_step5 envMatcherError fooJobEnv (stripLabels fooJobEnv)
                               "foo" trsFoo (envEq "b") [] []))
                (window []) ["env"] ltac:(vm_compute; reflexivity) ltac:(vm_compute; reflexivity)) as H.
  rewrite H. vm_compute. reflexivity.
Defined.

(** C9 (counterexample): for [foo{job="a",env="b"}], the failed query of
    the [job="a"] matcher in step 5 does not end the selector: the loop
    goes on to [env="b"], which adds a second finding for the same
    selector. *)
Lemma Check_matcher_error_continues :
  runCheck envMatcherError (exprOf (leaf fooJobEnv)) [] =
    [queryProblem envMatcherError timeout
       (VectorSelector_String {| vs_Name := "foo"; vs_LabelMatchers := [jobEq "a"] |});
     {| Fragment := VectorSelector_String fooJobEnv; Reporter := SeriesCheckName;
        Text := MsgNoMatcherSeries "http://prom" "foo" "env" (Matcher_String (envEq "b")) (toTime exFromMs) None;
        Severity_of := Bug |}].
Proof. vm_compute. reflexivity. Qed.

(** C9 (amended): a failed backend query adds exactly one finding whose
    fragment is the queried selector and whose severity comes from the
    error classifier with default bug. A failure at step 1 (the selector)
    or step 2 (the bare selector) ends the selector; at step 3 the label
    loop goes on with the next label; at step 5 [checkMatcher] returns to
    the matcher loop, which goes on with the next matcher. *)
Theorem query_errors_become_findings (env : Env) (entries : list Entry) (selector : VectorSelector)
  (problems : list Problem) (log : list Event) (e : QueryError) :
  let bareSelector := stripLabels selector in
  (forall s, Fragment (queryProblem env e s) = s /\
             Severity_of (queryProblem env e s) = snd (textAndSeverityFromError env e Bug)) /\
  (rule_HasComment env ("disable " +:+ selectorKey selector) = false ->
   rule_HasComment env ("disable " +:+ selectorKey bareSelector) = false ->
   String.eqb (metricNameOf selector) "ALERTS" || String.eqb (metricNameOf selector) "ALERTS_FOR_STATE" = false ->
   (prom_Query env (count (VectorSelector_String selector)) = Err e ->
    fst (checkSelector env entries selector problems log)
      = problems ++ [queryProblem env e (VectorSelector_String selector)]) /\
   (forall vals, prom_Query env (count (VectorSelector_String selector)) = Ok vals -> sumZ vals <= 0 ->
    prom_RangeQuery env (count (VectorSelector_String bareSelector)) rangeLookback rangeStep = Err e ->
    fst (checkSelector env entries selector problems log)
      = problems ++ [queryProblem env e (VectorSelector_String bareSelector)])) /\
  (forall name rest hc, prom_RangeQuery env (labelQuery selector name) rangeLookback rangeStep = Err e ->
     labelLoop env selector (name :: rest) problems hc log =
       labelLoop env selector rest (problems ++ [queryProblem env e (VectorSelector_String selector)]) hc
         (log ++ [EvRangeQuery (labelQuery selector name) rangeLookback rangeStep])) /\
  (forall metricName trs hc lm,
     let labelSelector := {| vs_Name := metricName; vs_LabelMatchers := [lm] |} in
     prom_RangeQuery env (count (VectorSelector_String labelSelector)) rangeLookback rangeStep = Err e ->
     checkMatcher env selector bareSelector metricName trs hc lm problems log =
       (problems ++ [queryProblem env e (VectorSelector_String labelSelector)],
        log ++ [EvRangeQuery (count (VectorSelector_String labelSelector)) rangeLookback rangeStep])).
Proof.
  intros bareSelector. subst bareSelector. split; [|split; [|split]].
  - intros s. unfold queryProblem. destruct (textAndSeverityFromError env e Bug); split; reflexivity.
  - intros Hd1 Hd2 Halerts. split.
    + intros Hq. unfold checkSelector, bind, HasComment, ret. rewrite Hd1. simpl. rewrite Hd2. simpl.
      rewrite Halerts. unfold instantSeriesCount, promQuery, bind, ret. rewrite Hq. reflexivity.
    + intros vals Hq Hcount Hqr.
      unfold checkSelector, bind, HasComment, ret. rewrite Hd1. simpl. rewrite Hd2. simpl.
      rewrite Halerts. unfold instantSeriesCount, promQuery, bind, ret. rewrite Hq. simpl.
      destruct (Z.ltb_spec 0 (sumZ vals)) as [Hlt|_]; [lia|].
      unfold serieTimeRanges, promRangeQuery, bind, ret. rewrite Hqr. reflexivity.
  - intros name rest hc Hq. simpl. unfold bind at 1, serieTimeRanges, bind at 1, promRangeQuery, ret.
    rewrite Hq. reflexivity.
  - intros metricName trs hc lm labelSelector Hq.
    unfold checkMatcher, bind, serieTimeRanges, promRangeQuery, bind, ret. fold labelSelector.
    rewrite Hq. reflexivity.
Qed.

Lemma query_errors_become_findings_witness :
  checkMatcher envMatcherError fooJobEnv (stripLabels fooJobEnv) "foo" trsFoo [] (jobEq "a") [] [] =
    ([queryProblem envMatcherError timeout
        (VectorSelector_String {| vs_Name := "foo"; vs_LabelMatchers := [jobEq "a"] |})],
     [EvRangeQuery (count (VectorSelector_String {| vs_Name := "foo"; vs_LabelMatchers := [jobEq "a"] |}))
        rangeLookback rangeStep]) /\
  Severity_of (queryProblem envMatcherError timeout "foo") = Bug.
Proof.
  pose proof (query_errors_become_findings envMatcherError [] fooJobEnv [] [] timeout) as H.
  cbv zeta in H. destruct H as (Hqp & _ & _ & Hcm). split.
  - apply (Hcm "foo" trsFoo [] (jobEq "a")). vm_compute. reflexivity.
  - rewrite (proj2 (Hqp "foo")). vm_compute. reflexivity.
Defined.

(** * Further properties *)

(** ** serieTimeRanges: coverage, length and number of ranges *)

Lemma covered_labels P rs lbls t : labelsIn P rs -> covered rs lbls t -> lbls ∈ P.
Proof. intros HP (r & Hr & <- & _). apply HP, Hr. Qed.

Lemma addSample_covered lbls' stp rs ms lbls t :
  covered rs lbls t ->
  (lbls' = lbls -> forall r, r ∈ rs -> tr_labels r = lbls -> tr_end r <= toTime ms + stp) ->
  covered (addSample lbls' stp rs ms) lbls t.
Proof.
  intros (r & Hr & Hrl & Ht) Hbound. unfold addSample.
  pose proof (extendRange_spec lbls' (toTime ms) stp rs) as Hspec.
  destruct (extendRange lbls' (toTime ms) stp rs) as [rs'|].
  - destruct Hspec as (i & r0 & Hi & [Hl Hm] & _ & ->).
    apply list_elem_of_lookup_1 in Hr as [k Hk].
    destruct (decide (k = i)) as [->|Hne].
    + rewrite Hi in Hk. injection Hk as <-.
      pose proof (Hbound ltac:(congruence) r0 (list_elem_of_lookup_2 _ _ _ Hi) Hrl).
      exists {| tr_labels := tr_labels r0; tr_start := tr_start r0; tr_end := toTime ms + stp |}.
      split; [|simpl; split; [exact Hrl | lia]].
      apply (list_elem_of_lookup_2 _ i).
      rewrite list_lookup_insert. apply lookup_lt_Some in Hi.
      rewrite decide_True by (split; [reflexivity | exact Hi]). reflexivity.
    + exists r. split; [|split; [exact Hrl | exact Ht]].
      apply (list_elem_of_lookup_2 _ k). rewrite list_lookup_insert_ne by congruence. exact Hk.
  - exists r. split; [apply elem_of_app; left; exact Hr | split; [exact Hrl | exact Ht]].
Qed.

Lemma addSample_covers_new lbls stp rs ms :
  0 < stp -> covered (addSample lbls stp rs ms) lbls (toTime ms).
Proof.
  intros Hstp. unfold addSample.
  pose proof (extendRange_spec lbls (toTime ms) stp rs) as Hspec.
  destruct (extendRange lbls (toTime ms) stp rs) as [rs'|].
  - destruct Hspec as (i & r0 & Hi & [Hl Hm] & _ & ->).
    exists {| tr_labels := tr_labels r0; tr_start := tr_start r0; tr_end := toTime ms + stp |}.
    split; [|simpl; split; [exact Hl | lia]].
    apply (list_elem_of_lookup_2 _ i).
    rewrite list_lookup_insert. apply lookup_lt_Some in Hi.
    rewrite decide_True by (split; [reflexivity | exact Hi]). reflexivity.
  - eexists. split; [apply elem_of_app; right; apply list_elem_of_singleton; reflexivity|].
    simpl. split; [reflexivity | lia].
Qed.

Lemma addSample_end_bound lbls stp rs ms T :
  0 <= stp -> T <= toTime ms ->
  (forall r, r ∈ rs -> tr_labels r = lbls -> tr_end r <= T + stp) ->
  forall r, r ∈ addSample lbls stp rs ms -> tr_labels r = lbls -> tr_end r <= toTime ms + stp.
Proof.
  intros Hstp HT Hb r Hr Hrl. unfold addSample in Hr.
  pose proof (extendRange_spec lbls (toTime ms) stp rs) as Hspec.
  destruct (extendRange lbls (toTime ms) stp rs) as [rs'|].
  - destruct Hspec as (i & r0 & Hi & _ & _ & ->).
    apply list_elem_of_lookup_1 in Hr as [k Hk].
    apply list_lookup_insert_Some in Hk as [(_ & <- & _)|(_ & Hk)]; simpl; [lia|].
    pose proof (Hb r (list_elem_of_lookup_2 _ _ _ Hk) Hrl). lia.
  - apply elem_of_app in Hr as [Hr|Hr].
    + pose proof (Hb r Hr Hrl). lia.
    + apply list_elem_of_singleton in Hr as ->. simpl. lia.
Qed.

Lemma fold_addSample_covered_other lbls' stp vs rs lbls t :
  lbls' <> lbls -> covered rs lbls t -> covered (fold_left (addSample lbls' stp) vs rs) lbls t.
Proof.
  revert rs. induction vs as [|ms vs IH]; intros rs Hne Hc; simpl; [exact Hc|].
  apply IH; [exact Hne|]. apply addSample_covered; [exact Hc|]. intros Heq. congruence.
Qed.

Lemma fold_addSample_covered lbls stp vs rs T :
  0 < stp ->
  (forall r, r ∈ rs -> tr_labels r = lbls -> tr_end r <= T + stp) ->
  Forall (fun v => T <= toTime v) vs -> StronglySorted Z.le vs ->
  forall t, covered rs lbls t \/ (exists v, In v vs /\ t = toTime v) ->
  covered (fold_left (addSample lbls stp) vs rs) lbls t.
Proof.
  revert rs T. induction vs as [|ms vs IH]; intros rs T Hstp Hb Hge Hsorted t Ht; simpl.
  - destruct Ht as [Hc|(v & [] & _)]. exact Hc.
  - apply Forall_cons in Hge as [Hms _].
    apply StronglySorted_inv in Hsorted as [Hsorted Hrest].
    apply (IH _ (toTime ms)).
    + exact Hstp.
    + apply (addSample_end_bound _ _ _ _ T); [lia | exact Hms | exact Hb].
    + eapply Forall_impl; [exact Hrest|]. intros x Hx. unfold toTime. lia.
    + exact Hsorted.
    + destruct Ht as [Hc|(v & [<-|Hv] & ->)].
      * left. apply addSample_covered; [exact Hc|]. intros _ r Hr Hrl.
        pose proof (Hb r Hr Hrl). lia.
      * left. apply addSample_covers_new, Hstp.
      * right. exists v. split; [exact Hv | reflexivity].
Qed.

Lemma buildRanges_covered stp samples rs P :
  0 < stp -> labelsIn P rs ->
  NoDup (map s_Metric samples) -> (forall s, s ∈ samples -> s_Metric s ∉ P) ->
  Forall (fun s => StronglySorted Z.le (s_Values s)) samples ->
  (forall lbls t, covered rs lbls t -> covered (buildRanges stp samples rs) lbls t) /\
  (forall s v, In s samples -> In v (s_Values s) -> covered (buildRanges stp samples rs) (s_Metric s) (toTime v)).
Proof.
  unfold buildRanges. revert rs P.
  induction samples as [|s samples IH]; intros rs P Hstp HP Hnodup Hfresh Hsorted; simpl.
  - split; [tauto | intros ? ? []].
  - simpl in Hnodup. apply NoDup_cons in Hnodup as [Hnotin Hnodup].
    apply Forall_cons in Hsorted as [Hs Hsorted].
    set (rs1 := fold_left (addSample (s_Metric s) stp) (s_Values s) rs).
    assert (HP1 : labelsIn (s_Metric s :: P) rs1).
    { apply fold_addSample_labels; [|apply list_elem_of_here].
      intros a Ha. apply list_elem_of_further, HP, Ha. }
    assert (Hfresh1 : forall s', s' ∈ samples -> s_Metric s' ∉ s_Metric s :: P).
    { intros s' Hs' Hin. apply elem_of_cons in Hin as [Hin|Hin].
      - apply Hnotin. rewrite <- Hin. apply list_elem_of_In, in_map, list_elem_of_In, Hs'.
      - apply (Hfresh s' (list_elem_of_further _ _ _ Hs') Hin). }
    destruct (IH rs1 (s_Metric s :: P) Hstp HP1 Hnodup Hfresh1 Hsorted) as [IH1 IH2].
    split.
    + intros lbls t Hc. apply IH1.
      apply fold_addSample_covered_other; [|exact Hc].
      intros Heq. apply (Hfresh s (list_elem_of_here _ _)). rewrite Heq.
      apply (covered_labels P rs lbls t HP Hc).
    + intros s' v [<-|Hs'] Hv.
      * apply IH1.
        set (T := match s_Values s with [] => 0 | v :: _ => toTime v end).
        apply (fold_addSample_covered _ _ _ _ T Hstp).
        -- intros a Ha Hal. exfalso. apply (Hfresh s (list_elem_of_here _ _)).
           rewrite <- Hal. apply HP, Ha.
        -- unfold T. destruct (s_Values s) as [|v0 vs]; [constructor|].
           apply StronglySorted_inv in Hs as [_ Hv0]. constructor; [lia|].
           eapply Forall_impl; [exact Hv0|]. intros x Hx. unfold toTime. lia.
        -- exact Hs.
        -- right. exists v. split; [exact Hv | reflexivity].
      * apply IH2; assumption.
Qed.

(** [serieTimeRanges] covers every sample: when the series of the query
    result have distinct label sets and time-ordered values and the step
    is positive, every sample lies in a range [[start, end)] of its own
    label set. *)
Theorem serieTimeRanges_covers_samples (qr : RangeQueryResult) (stp : Z) :
  0 < stp -> NoDup (map s_Metric (qr_Samples qr)) ->
  Forall (fun s => StronglySorted Z.le (s_Values s)) (qr_Samples qr) ->
  forall s v, In s (qr_Samples qr) -> In v (s_Values s) ->
    exists r, In r (ranges (timeRangesOf qr stp)) /\ tr_labels r = s_Metric s /\
              tr_start r <= toTime v < tr_end r.
Proof.
  intros Hstp Hnodup Hsorted s v Hs Hv.
  destruct (buildRanges_covered stp (qr_Samples qr) [] [] Hstp) as [_ H2].
  - intros ? Hin. inversion Hin.
  - exact Hnodup.
  - intros ? _ Hin. inversion Hin.
  - exact Hsorted.
  - destruct (H2 s v Hs Hv) as (r & Hr & Hl & Ht). exists r.
    split; [apply list_elem_of_In, Hr | split; assumption].
Qed.

Lemma serieTimeRanges_covers_samples_witness :
  exists r, In r (ranges (timeRangesOf
                    (window [{| s_Metric := {[ "job" := "a" ]}; s_Values := [exFromMs; exFromMs + stepMs] |};
                             {| s_Metric := ∅; s_Values := [exFromMs] |}]) (toTime stepMs))) /\
    tr_labels r = {[ "job" := "a" ]} /\ tr_start r <= toTime (exFromMs + stepMs) < tr_end r.
Proof.
  exact (serieTimeRanges_covers_samples
           (window [{| s_Metric := {[ "job" := "a" ]}; s_Values := [exFromMs; exFromMs + stepMs] |};
                    {| s_Metric := ∅; s_Values := [exFromMs] |}]) (toTime stepMs)
           ltac:(vm_compute; reflexivity)
           ltac:(apply NoDup_cons; split; [intros Hin; apply list_elem_of_singleton in Hin; discriminate
                                          | apply NoDup_singleton])
           ltac:(apply List.Forall_forall; intros s Hs; destruct Hs as [<-|[<-|[]]]; simpl;
                 repeat (first [apply SSorted_nil | apply SSorted_cons | apply List.Forall_nil
                               | apply List.Forall_cons | unfold stepMs; lia]))
           {| s_Metric := {[ "job" := "a" ]}; s_Values := [exFromMs; exFromMs + stepMs] |}
           (exFromMs + stepMs) ltac:(left; reflexivity) ltac:(right; left; reflexivity)).
Defined.

Lemma addSample_step_long lbls stp rs ms :
  (forall r, r ∈ rs -> tr_start r + stp <= tr_end r) ->
  (forall r, r ∈ addSample lbls stp rs ms -> tr_start r + stp <= tr_end r) /\
  (length (addSample lbls stp rs ms) <= S (length rs))%nat.
Proof.
  intros Hl. unfold addSample.
  pose proof (extendRange_spec lbls (toTime ms) stp rs) as Hspec.
  destruct (extendRange lbls (toTime ms) stp rs) as [rs'|].
  - destruct Hspec as (i & r0 & Hi & [_ Hm] & _ & ->). split; [|rewrite length_insert; lia].
    intros r Hr. apply list_elem_of_lookup_1 in Hr as [k Hk].
    apply list_lookup_insert_Some in Hk as [(_ & <- & _)|(_ & Hk)]; simpl; [lia|].
    apply Hl, (list_elem_of_lookup_2 _ _ _ Hk).
  - split; [|rewrite length_app; simpl; lia].
    intros r Hr. apply elem_of_app in Hr as [Hr|Hr]; [apply Hl, Hr|].
    apply list_elem_of_singleton in Hr as ->. simpl. lia.
Qed.

Lemma buildRanges_step_long stp samples rs :
  (forall r, r ∈ rs -> tr_start r + stp <= tr_end r) ->
  (forall r, r ∈ buildRanges stp samples rs -> tr_start r + stp <= tr_end r) /\
  (length (buildRanges stp samples rs) <= length rs + length (concat (map s_Values samples)))%nat.
Proof.
  unfold buildRanges. revert rs. induction samples as [|s samples IH]; intros rs Hl; simpl.
  - split; [exact Hl | lia].
  - assert (Hs : forall vs rs0, (forall r, r ∈ rs0 -> tr_start r + stp <= tr_end r) ->
              (forall r, r ∈ fold_left (addSample (s_Metric s) stp) vs rs0 -> tr_start r + stp <= tr_end r) /\
              (length (fold_left (addSample (s_Metric s) stp) vs rs0) <= length rs0 + length vs)%nat).
    { induction vs as [|v vs IHv]; intros rs0 H0; simpl; [split; [exact H0 | lia]|].
      destruct (addSample_step_long (s_Metric s) stp rs0 v H0) as [H1 Hlen].
      destruct (IHv _ H1) as [H2 Hlen2]. split; [exact H2 | lia]. }
    destruct (Hs (s_Values s) rs Hl) as [H1 Hlen1].
    destruct (IH _ H1) as [H2 Hlen2]. split; [exact H2|].
    rewrite length_app. lia.
Qed.

(** Every range of [serieTimeRanges] is at least one step long and carries
    the label set of one of the series of the query result, and there are
    never more ranges than samples. *)
Theorem serieTimeRanges_ranges_shape (qr : RangeQueryResult) (stp : Z) :
  (forall r, In r (ranges (timeRangesOf qr stp)) ->
     tr_start r + stp <= tr_end r /\ In (tr_labels r) (map s_Metric (qr_Samples qr))) /\
  (length (ranges (timeRangesOf qr stp)) <= length (concat (map s_Values (qr_Samples qr))))%nat.
Proof.
  destruct (buildRanges_step_long stp (qr_Samples qr) []) as [Hl Hlen].
  { intros r Hr. inversion Hr. }
  split; [|simpl in Hlen; exact Hlen].
  intros r Hr. apply list_elem_of_In in Hr. split; [apply Hl, Hr|].
  assert (HQ : labelsIn (map s_Metric (qr_Samples qr)) (ranges (timeRangesOf qr stp))).
  { unfold timeRangesOf, buildRanges. simpl.
    assert (Hgen : forall samples rs, incl samples (qr_Samples qr) ->
              labelsIn (map s_Metric (qr_Samples qr)) rs ->
              labelsIn (map s_Metric (qr_Samples qr))
                (fold_left (fun rs s => fold_left (addSample (s_Metric s) stp) (s_Values s) rs) samples rs)).
    { induction samples as [|s samples IH]; intros rs Hincl HP; simpl; [exact HP|].
      apply IH; [intros x Hx; apply Hincl; right; exact Hx|].
      apply fold_addSample_labels; [exact HP|].
      apply list_elem_of_In, in_map, Hincl. left. reflexivity. }
    apply Hgen; [intros x Hx; exact Hx|]. intros a Ha. inversion Ha. }
  apply list_elem_of_In, HQ, Hr.
Qed.

(** ** timeRanges: labelValues, withLabelName, avgLife, oldest and newest *)

Lemma labelValues_elem (trs : timeRanges) (name v : string) :
  v ∈ labelValues trs name <-> v ∈ omap (fun r => tr_labels r !! name) (ranges trs).
Proof. unfold labelValues. rewrite elem_of_elements, elem_of_list_to_set. reflexivity. Qed.

Lemma omap_withLabelName_length (trs : timeRanges) (name : string) :
  length (omap (fun r => tr_labels r !! name) (ranges trs)) = length (withLabelName trs name).
Proof.
  unfold withLabelName. induction (ranges trs) as [|r rs IH]; simpl; [reflexivity|].
  destruct (tr_labels r !! name) eqn:Hr.
  - rewrite filter_cons_True; [simpl; f_equal; exact IH|]. rewrite Hr. apply bool_decide_pack. eexists; reflexivity.
  - rewrite filter_cons_False; [exact IH|]. rewrite Hr. intros Hf.
    apply bool_decide_unpack in Hf. destruct Hf as [? Hf]; discriminate.
Qed.

Lemma withLabelName_length (trs : timeRanges) (name : string) :
  (length (withLabelName trs name) <= length (ranges trs))%nat.
Proof. unfold withLabelName. apply length_filter. Qed.

Lemma labelValues_facts (trs : timeRanges) (name : string) :
  NoDup (labelValues trs name) /\
  (forall v, In v (labelValues trs name) <-> exists r, In r (ranges trs) /\ tr_labels r !! name = Some v) /\
  (length (labelValues trs name) <= length (withLabelName trs name))%nat.
Proof.
  split; [unfold labelValues; apply NoDup_elements|]. split.
  - intros v. rewrite <- list_elem_of_In, labelValues_elem, list_elem_of_omap.
    split; intros (r & Hr & Hv); exists r; rewrite ?list_elem_of_In in *; split; assumption.
  - rewrite <- omap_withLabelName_length. apply NoDup_incl_length; [apply NoDup_ListNoDup; unfold labelValues; apply NoDup_elements|].
    intros v Hv. apply list_elem_of_In. apply list_elem_of_In in Hv. apply labelValues_elem, Hv.
Qed.

(** [labelValues] lists each value of the label once, exactly the values the
    ranges carry; there are never more of them than ranges with the label. *)
Theorem labelValues_distinct_values (trs : timeRanges) (name : string) :
  NoDup (labelValues trs name) /\
  (forall v, In v (labelValues trs name) <-> exists r, In r (ranges trs) /\ tr_labels r !! name = Some v) /\
  (length (labelValues trs name) <= length (withLabelName trs name))%nat.
Proof. exact (labelValues_facts trs name). Qed.

Lemma omap_cons_eq {A B} (f : A -> option B) (x : A) (l : list A) :
  omap f (x :: l) = match f x with Some y => y :: omap f l | None => omap f l end.
Proof. reflexivity. Qed.

Lemma omap_full_length {A B} (f : A -> option B) (l : list A) :
  length (omap f l) = length l -> Forall (fun x => is_Some (f x)) l.
Proof.
  induction l as [|x l IH]; intros Hl; [constructor|].
  assert (Hle : (length (omap f l) <= length l)%nat).
  { clear. induction l as [|y l IH]; [simpl; lia|].
    rewrite omap_cons_eq. destruct (f y); simpl; lia. }
  rewrite omap_cons_eq in Hl. destruct (f x) as [b|] eqn:Hx; simpl in Hl.
  - constructor; [eexists; exact Hx | apply IH; lia].
  - lia.
Qed.

(** A label is flagged high churn only if every range of its query
    carries the label and no two ranges carry the same value. *)
Theorem isHighChurn_distinct_ranges (trs : timeRanges) (name : string) :
  isHighChurn trs name = true ->
  Forall (fun r => is_Some (tr_labels r !! name)) (ranges trs) /\
  NoDup (omap (fun r => tr_labels r !! name) (ranges trs)).
Proof.
  unfold isHighChurn. intros H. apply andb_true_iff in H as [Hn _]. apply Nat.eqb_eq in Hn.
  pose proof (labelValues_facts trs name) as (Hnd & _ & Hle).
  pose proof (withLabelName_length trs name).
  rewrite <- omap_withLabelName_length in *.
  assert (Heq : length (omap (fun r => tr_labels r !! name) (ranges trs)) = length (ranges trs)).
  { assert (length (omap (fun r => tr_labels r !! name) (ranges trs)) <= length (ranges trs))%nat.
    { rewrite omap_withLabelName_length. apply withLabelName_length. }
    lia. }
  split; [apply omap_full_length, Heq|].
  apply NoDup_ListNoDup. apply (NoDup_incl_NoDup (l := labelValues trs name)); [apply NoDup_ListNoDup, Hnd | lia|].
  intros v Hv. apply list_elem_of_In. apply list_elem_of_In in Hv. apply labelValues_elem, Hv.
Qed.

Lemma isHighChurn_distinct_ranges_witness :
  isHighChurn (timeRangesOf (window [{| s_Metric := {[ "job" := "a" ]}; s_Values := [exFromMs] |};
                                     {| s_Metric := {[ "job" := "b" ]}; s_Values := [exFromMs] |}]) rangeStep) "job"
    = true /\
  NoDup (omap (fun r => tr_labels r !! "job")
           (ranges (timeRangesOf (window [{| s_Metric := {[ "job" := "a" ]}; s_Values := [exFromMs] |};
                                         {| s_Metric := {[ "job" := "b" ]}; s_Values := [exFromMs] |}]) rangeStep))).
Proof.
  assert (H : isHighChurn (timeRangesOf (window [{| s_Metric := {[ "job" := "a" ]}; s_Values := [exFromMs] |};
                                     {| s_Metric := {[ "job" := "b" ]}; s_Values := [exFromMs] |}]) rangeStep) "job"
    = true) by (vm_compute; reflexivity).
  split; [exact H | exact (proj2 (isHighChurn_distinct_ranges _ _ H))].
Defined.



Lemma oldest_fold (rs : list timeRange) (acc : Z) :
  Forall (fun r => tr_start r <> zeroTime) rs -> acc <> zeroTime ->
  let res := fold_left (fun ts r => if IsZero ts || (tr_start r <? ts) then tr_start r else ts) rs acc in
  res <= acc /\ (res = acc \/ In res (map tr_start rs)) /\ Forall (fun r => res <= tr_start r) rs.
Proof.
  revert acc. induction rs as [|r rs IH]; intros acc Hz Hacc; simpl.
  - split; [lia | split; [left; reflexivity | constructor]].
  - apply Forall_cons in Hz as [Hr Hz].
    assert (Hnz : IsZero acc = false) by (apply Z.eqb_neq; exact Hacc). rewrite Hnz. simpl.
    destruct (Z.ltb_spec (tr_start r) acc) as [Hlt|Hge].
    + destruct (IH (tr_start r) Hz Hr) as (H1 & H2 & H3). split; [lia|]. split.
      * destruct H2 as [->|H2]; right; [left; reflexivity | right; exact H2].
      * constructor; [exact H1 | exact H3].
    + destruct (IH acc Hz Hacc) as (H1 & H2 & H3). split; [exact H1|]. split.
      * destruct H2 as [->|H2]; [left; reflexivity | right; right; exact H2].
      * constructor; [lia | exact H3].
Qed.

Lemma newest_fold (rs : list timeRange) (acc : Z) :
  Forall (fun r => tr_end r <> zeroTime) rs -> acc <> zeroTime ->
  let res := fold_left (fun ts r => if IsZero ts || (ts <? tr_end r) then tr_end r else ts) rs acc in
  acc <= res /\ (res = acc \/ In res (map tr_end rs)) /\ Forall (fun r => tr_end r <= res) rs.
Proof.
  revert acc. induction rs as [|r rs IH]; intros acc Hz Hacc; simpl.
  - split; [lia | split; [left; reflexivity | constructor]].
  - apply Forall_cons in Hz as [Hr Hz].
    assert (Hnz : IsZero acc = false) by (apply Z.eqb_neq; exact Hacc). rewrite Hnz. simpl.
    destruct (Z.ltb_spec acc (tr_end r)) as [Hlt|Hge].
    + destruct (IH (tr_end r) Hz Hr) as (H1 & H2 & H3). split; [lia|]. split.
      * destruct H2 as [->|H2]; right; [left; reflexivity | right; exact H2].
      * constructor; [exact H1 | exact H3].
    + destruct (IH acc Hz Hacc) as (H1 & H2 & H3). split; [exact H1|]. split.
      * destruct H2 as [->|H2]; [left; reflexivity | right; right; exact H2].
      * constructor; [lia | exact H3].
Qed.

(** [oldest] and [newest] are Go's zero time when there is no range;
    otherwise, when no range starts or ends at the zero time, they are the
    earliest start and the latest end of the ranges. *)
Theorem oldest_newest_extremes (trs : timeRanges) :
  (ranges trs = [] -> oldest trs = zeroTime /\ newest trs = zeroTime) /\
  (ranges trs <> [] ->
   Forall (fun r => tr_start r <> zeroTime /\ tr_end r <> zeroTime) (ranges trs) ->
   In (oldest trs) (map tr_start (ranges trs)) /\ Forall (fun r => oldest trs <= tr_start r) (ranges trs) /\
   In (newest trs) (map tr_end (ranges trs)) /\ Forall (fun r => tr_end r <= newest trs) (ranges trs)).
Proof.
  unfold oldest, newest. split; [intros ->; split; reflexivity|].
  intros Hne Hz. destruct (ranges trs) as [|r rs]; [congruence|]. clear Hne.
  apply Forall_cons in Hz as [[Hs He] Hz]. simpl.

  destruct (oldest_fold rs (tr_start r) (Forall_impl _ _ _ Hz (fun r H => proj1 H)) Hs) as (O1 & O2 & O3).
  destruct (newest_fold rs (tr_end r) (Forall_impl _ _ _ Hz (fun r H => proj2 H)) He) as (N1 & N2 & N3).
  split; [destruct O2 as [->|O2]; [left; reflexivity | right; exact O2]|].
  split; [constructor; [exact O1 | exact O3]|].
  split; [destruct N2 as [->|N2]; [left; reflexivity | right; exact N2]|].
  constructor; [exact N1 | exact N3].
Qed.

Lemma oldest_newest_extremes_witness : oldest trsFoo <= newest trsFoo.
Proof.
  assert (H1 : ranges trsFoo <> []) by (vm_compute; discriminate).
  assert (H2 : Forall (fun r => tr_start r <> zeroTime /\ tr_end r <> zeroTime) (ranges trsFoo))
    by (vm_compute; repeat constructor; discriminate).
  pose proof (proj2 (oldest_newest_extremes trsFoo) H1 H2) as H.
  vm_compute. discriminate.
Defined.

(** ** stripLabels *)

Lemma stripLabels_fold (lms : list Matcher) (acc : VectorSelector) :
  fold_left (fun s lm => if String.eqb (lm_Name lm) MetricName
                         then {| vs_Name := lm_Value lm; vs_LabelMatchers := vs_LabelMatchers s ++ [lm] |}
                         else s) lms acc
  = {| vs_Name := match last (List.filter (fun lm => String.eqb (lm_Name lm) MetricName) lms) with
                  | Some lm => lm_Value lm
                  | None => vs_Name acc
                  end;
       vs_LabelMatchers := vs_LabelMatchers acc ++ List.filter (fun lm => String.eqb (lm_Name lm) MetricName) lms |}.
Proof.
  revert acc. induction lms as [|lm lms IH]; intros acc; simpl.
  - rewrite app_nil_r. destruct acc; reflexivity.
  - destruct (String.eqb (lm_Name lm) MetricName) eqn:Hm; rewrite IH; simpl.
    + rewrite last_cons, <- app_assoc. simpl.
      destruct (last (List.filter (fun lm => String.eqb (lm_Name lm) MetricName) lms)); reflexivity.
    + reflexivity.
Qed.

Lemma filter_idem {A} (f : A -> bool) (l : list A) : List.filter f (List.filter f l) = List.filter f l.
Proof.
  induction l as [|x l IH]; simpl; [reflexivity|].
  destruct (f x) eqn:Hx; simpl; [rewrite Hx, IH; reflexivity | exact IH].
Qed.

(** [stripLabels] keeps exactly the [__name__] matchers of the selector, in
    order, takes its name from the last of them (the selector's own name
    when there is none), and stripping twice is stripping once. *)
Theorem stripLabels_name_matchers (selector : VectorSelector) :
  vs_LabelMatchers (stripLabels selector)
    = List.filter (fun lm => String.eqb (lm_Name lm) MetricName) (vs_LabelMatchers selector) /\
  vs_Name (stripLabels selector)
    = match last (List.filter (fun lm => String.eqb (lm_Name lm) MetricName) (vs_LabelMatchers selector)) with
      | Some lm => lm_Value lm
      | None => vs_Name selector
      end /\
  stripLabels (stripLabels selector) = stripLabels selector.
Proof.
  unfold stripLabels. rewrite !stripLabels_fold. simpl.
  split; [reflexivity|]. split; [reflexivity|].
  rewrite filter_idem. simpl.
  destruct (last (List.filter (fun lm => String.eqb (lm_Name lm) MetricName) (vs_LabelMatchers selector)));
    reflexivity.
Qed.

(** ** The loop over the selectors *)

Lemma existsb_eqb_In (x : string) (l : list string) : existsb (String.eqb x) l = true <-> In x l.
Proof.
  rewrite existsb_exists. split.
  - intros (y & Hy & Heq). apply String.eqb_eq in Heq. subst. exact Hy.
  - intros Hx. exists x. split; [exact Hx | apply String.eqb_refl].
Qed.

Lemma checkSelectors_cons env entries sel rest done problems :
  checkSelectors env entries (sel :: rest) done problems =
    if existsb (String.eqb (VectorSelector_String sel)) done
    then checkSelectors env entries rest done problems
    else (problems' <- checkSelector env entries sel problems;;
          checkSelectors env entries rest (VectorSelector_String sel :: done) problems').
Proof. reflexivity. Qed.

Lemma firstOccurrences_cons seen sel rest :
  firstOccurrences seen (sel :: rest) =
    if existsb (String.eqb (VectorSelector_String sel)) seen
    then firstOccurrences seen rest
    else sel :: firstOccurrences (VectorSelector_String sel :: seen) rest.
Proof. reflexivity. Qed.

(** [Check] handles each selector of the query once, by its printed form:
    the selector loop runs exactly as on the list of first occurrences,
    with the same findings and the same queries, and that list has no two
    selectors with the same printed form. *)
Theorem checkSelectors_first_occurrences (env : Env) (entries : list Entry) (selectors : list VectorSelector)
  (done : list string) (problems : list Problem) (log : list Event) :
  checkSelectors env entries selectors done problems log
    = checkSelectors env entries (firstOccurrences done selectors) done problems log /\
  NoDup (map VectorSelector_String (firstOccurrences done selectors)) /\
  (forall s, In s (firstOccurrences done selectors) -> ~ In (VectorSelector_String s) done).
Proof.
  revert done problems log. induction selectors as [|sel rest IH]; intros done problems log.
  - split; [reflexivity | split; [constructor | intros s []]].
  - rewrite firstOccurrences_cons.
    destruct (existsb (String.eqb (VectorSelector_String sel)) done) eqn:Hd.
    + rewrite checkSelectors_cons, Hd. exact (IH done problems log).
    + split; [|split].
      * rewrite !checkSelectors_cons, Hd. unfold bind.
        destruct (checkSelector env entries sel problems log) as [ps log'].
        apply IH.
      * cbn [map]. apply NoDup_cons. split.
        -- intros Hin. apply list_elem_of_In, in_map_iff in Hin as (s & Hs & Hin).
           apply (proj2 (proj2 (IH (VectorSelector_String sel :: done) problems log)) s Hin).
           rewrite Hs. left. reflexivity.
        -- apply (IH (VectorSelector_String sel :: done) problems log).
      * intros s [<-|Hs] Hin.
        -- apply existsb_eqb_In in Hin. congruence.
        -- apply (proj2 (proj2 (IH (VectorSelector_String sel :: done) problems log)) s Hs).
           right. exact Hin.
Qed.

(** ** Findings are only appended *)

Lemma Ext_refl ps : Ext ps ps.
Proof. exists []. split; [symmetry; apply app_nil_r | constructor]. Qed.

Lemma Ext_trans a b c : Ext a b -> Ext b c -> Ext a c.
Proof.
  intros (x & -> & Hx) (y & -> & Hy). exists (x ++ y).
  split; [symmetry; apply app_assoc | apply Forall_app; split; assumption].
Qed.

Lemma Ext_app ps extra : Forall (fun p => Reporter p = SeriesCheckName) extra -> Ext ps (ps ++ extra).
Proof. intros H. exists extra. split; [reflexivity | exact H]. Qed.

Lemma Ext_one ps p : Reporter p = SeriesCheckName -> Ext ps (ps ++ [p]).
Proof. intros H. apply Ext_app. constructor; [exact H | constructor]. Qed.

Lemma Appends_ret {A} (proj : A -> list Problem) problems a :
  Ext problems (proj a) -> Appends proj problems (ret a).
Proof. intros H log. exact H. Qed.

Lemma Appends_bind {A B} (proj : B -> list Problem) problems (m : M A) (f : A -> M B) :
  (forall a, Appends proj problems (f a)) -> Appends proj problems (bind m f).
Proof. intros H log. unfold bind. destruct (m log) as [a log']. apply H. Qed.

Lemma Appends_chain {A B} (proj1 : A -> list Problem) (proj2 : B -> list Problem) problems
  (m : M A) (f : A -> M B) :
  Appends proj1 problems m ->
  (forall a, Ext problems (proj1 a) -> Appends proj2 problems (f a)) ->
  Appends proj2 problems (bind m f).
Proof.
  intros Hm Hf log. unfold bind. specialize (Hm log).
  destruct (m log) as [a log']. apply Hf. exact Hm.
Qed.

Lemma Appends_weaken {A} (proj : A -> list Problem) problems ps (m : M A) :
  Ext problems ps -> Appends proj ps m -> Appends proj problems m.
Proof. intros H1 H2 log. apply (Ext_trans _ ps); [exact H1 | apply H2]. Qed.

Lemma queryProblem_reporter env e s : Reporter (queryProblem env e s) = SeriesCheckName.
Proof. unfold queryProblem. destruct (textAndSeverityFromError env e Bug). reflexivity. Qed.

Lemma minAgeWarnings_reporter cs : Forall (fun p => Reporter p = SeriesCheckName) (minAgeWarnings cs).
Proof.
  unfold minAgeWarnings. induction cs as [|c cs IH]; simpl; [constructor|].
  apply Forall_app. split; [|exact IH].
  destruct c as [cmt|]; [|constructor]. destruct (ParseDuration (cmt_Value cmt)); repeat constructor.
Qed.

Lemma getMinAge_appends env selector problems (g : Z * list Problem -> M (list Problem)) :
  (forall minAge ps, Ext problems (problems ++ ps) -> Appends id problems (g (minAge, ps))) ->
  Appends id problems (bind (getMinAge env selector) g).
Proof.
  intros Hg log. unfold bind. rewrite getMinAge_spec. apply Hg. apply Ext_app, minAgeWarnings_reporter.
Qed.

Lemma labelLoop_appends env selector names problems hc :
  Appends fst problems (labelLoop env selector names problems hc).
Proof.
  revert problems hc. induction names as [|name names IH]; intros problems hc; simpl.
  - apply Appends_ret, Ext_refl.
  - apply Appends_bind. intros r. destruct r as [trs|e].
    + eapply Appends_weaken; [|apply IH].
      destruct (withLabelName trs name); [apply Ext_one; reflexivity | apply Ext_refl].
    + eapply Appends_weaken; [|apply IH]. apply Ext_one, queryProblem_reporter.
Qed.

Lemma checkMatcher_appends env selector bareSelector metricName trs hc lm problems :
  Appends id problems (checkMatcher env selector bareSelector metricName trs hc lm problems).
Proof.
  unfold checkMatcher. apply Appends_bind. intros r. destruct r as [trsLabel|e].
  - destruct (ranges trsLabel) as [|r rs].
    + apply Appends_ret, Ext_one. reflexivity.
    + destruct (matcherDisappearanceApplies trsLabel).
      * apply getMinAge_appends. intros minAge ps Hps. cbv beta iota zeta.
        destruct (negb (newest trsLabel <? until trsLabel - minAge)); apply Appends_ret; [exact Hps|].
        apply (Ext_trans _ (problems ++ ps)); [exact Hps | apply Ext_one; reflexivity].
      * destruct (1 <? length (r :: rs))%nat; apply Appends_ret; [apply Ext_one; reflexivity | apply Ext_refl].
  - apply Appends_ret, Ext_one, queryProblem_reporter.
Qed.

Lemma matcherLoop_appends env selector bareSelector metricName trs hc lms problems :
  Appends id problems (matcherLoop env selector bareSelector metricName trs hc lms problems).
Proof.
  revert problems. induction lms as [|lm lms IH]; intros problems; simpl.
  - apply Appends_ret, Ext_refl.
  - destruct (String.eqb (lm_Name lm) MetricName); [apply IH|].
    destruct (negb (MatchType_eqb (lm_Type lm) MatchEqual) && negb (MatchType_eqb (lm_Type lm) MatchRegexp));
      [apply IH|].
    apply Appends_bind. intros ignored. destruct ignored; [apply IH|].
    apply (Appends_chain id); [apply checkMatcher_appends|].
    intros ps Hps. eapply Appends_weaken; [exact Hps | apply IH].
Qed.

Lemma metricDisappearance_appends env selector bareSelector trs problems :
  Appends id problems (metricDisappearance env selector bareSelector trs problems).
Proof.
  unfold metricDisappearance. apply getMinAge_appends. intros minAge ps Hps. cbv beta iota zeta.
  destruct (negb (newest trs <? until trs - minAge)); apply Appends_ret; [exact Hps|].
  apply (Ext_trans _ (problems ++ ps)); [exact Hps | apply Ext_one; reflexivity].
Qed.

Lemma checkSelector_appends env entries selector problems :
  Appends id problems (checkSelector env entries selector problems).
Proof.
  unfold checkSelector. cbv zeta.
  apply Appends_bind. intros d1. apply Appends_bind. intros disabled.
  destruct disabled; [apply Appends_ret, Ext_refl|].
  destruct (String.eqb (metricNameOf selector) "ALERTS" || String.eqb (metricNameOf selector) "ALERTS_FOR_STATE").
  { apply Appends_ret, Ext_app. unfold alertsProblems.
    destruct (String.eqb (alertnameOf selector) ""); [constructor|].
    destruct (findAlertingRule entries (alertnameOf selector)); repeat constructor. }
  apply Appends_bind. intros c. destruct c as [cnt|e]; [|apply Appends_ret, Ext_one, queryProblem_reporter].
  destruct (0 <? cnt); [apply Appends_ret, Ext_refl|].
  apply Appends_bind. intros r. destruct r as [trs|e]; [|apply Appends_ret, Ext_one, queryProblem_reporter].
  destruct (ranges trs) as [|r rs].
  { apply Appends_ret, Ext_app. unfold noSeriesProblems.
    destruct (findRecordingRule entries _); repeat constructor. }
  apply (Appends_chain fst); [apply labelLoop_appends|]. intros [ps hc] Hps. simpl in Hps.
  destruct ps as [|p ps']; [|apply Appends_ret, Hps].
  destruct (metricDisappearanceApplies trs).
  - eapply Appends_weaken; [exact Hps | apply metricDisappearance_appends].
  - apply (Appends_chain id); [eapply Appends_weaken; [exact Hps | apply matcherLoop_appends]|].
    intros ps Hps2. destruct ps as [|p ps']; apply Appends_ret; [|exact Hps2].
    apply (Ext_trans _ []); [exact Hps2|]. apply Ext_app.
    unfold metricIntermittency. destruct (1 <? length (ranges trs))%nat; repeat constructor.
Qed.

(** [checkSelector] never drops or rewrites a finding it is given: it
    returns them followed by new findings, and every finding [Check]
    returns is reported by [promql/series]. *)
Theorem Check_only_appends (env : Env) (entries : list Entry) (selector : VectorSelector)
  (problems : list Problem) (log : list Event) (expr : PromQLExpr) :
  (exists extra, fst (checkSelector env entries selector problems log) = problems ++ extra /\
                 Forall (fun p => Reporter p = SeriesCheckName) extra) /\
  Forall (fun p => Reporter p = SeriesCheckName) (fst (Check env expr entries log)).
Proof.
  split; [apply checkSelector_appends|].
  assert (Hloop : forall sels done ps, Appends id ps (checkSelectors env entries sels done ps)).
  { induction sels as [|sel sels IH]; intros done ps; simpl.
    - apply Appends_ret, Ext_refl.
    - destruct (existsb (String.eqb (VectorSelector_String sel)) done); [apply IH|].
      apply (Appends_chain id); [apply checkSelector_appends|].
      intros ps' Hps'. eapply Appends_weaken; [exact Hps' | apply IH]. }
  unfold Check. destruct (SyntaxError expr); [constructor|].
  destruct (Hloop (getSelectors (Query expr)) [] [] log) as (extra & Heq & Hf).
  unfold id in Heq. rewrite Heq. exact Hf.
Qed.

(** ** Early exits of a selector *)

(** A selector disabled by a [disable] comment on it or on its bare
    selector, or whose instant query returns a positive series count, adds
    no finding and makes no range query: only the comment lookups, and in
    the last case one instant query, are made. *)
Theorem checkSelector_early_exits (env : Env) (entries : list Entry) (selector : VectorSelector)
  (problems : list Problem) (log : list Event) :
  let c1 := "disable " +:+ selectorKey selector in
  let c2 := "disable " +:+ selectorKey (stripLabels selector) in
  (rule_HasComment env c1 = true ->
   checkSelector env entries selector problems log = (problems, log ++ [EvHasComment c1])) /\
  (rule_HasComment env c1 = false -> rule_HasComment env c2 = true ->
   checkSelector env entries selector problems log = (problems, log ++ [EvHasComment c1; EvHasComment c2])) /\
  (forall vals, rule_HasComment env c1 = false -> rule_HasComment env c2 = false ->
   String.eqb (metricNameOf selector) "ALERTS" || String.eqb (metricNameOf selector) "ALERTS_FOR_STATE" = false ->
   prom_Query env (count (VectorSelector_String selector)) = Ok vals -> 0 < sumZ vals ->
   checkSelector env entries selector problems log
     = (problems, log ++ [EvHasComment c1; EvHasComment c2; EvQuery (count (VectorSelector_String selector))])).
Proof.
  intros c1 c2. split; [|split].
  - intros H1. unfold checkSelector, bind, HasComment, ret. fold c1. rewrite H1. reflexivity.
  - intros H1 H2. unfold checkSelector, bind, HasComment, ret. fold c1 c2. rewrite H1. simpl. fold c2.
    rewrite H2. rewrite <- app_assoc. reflexivity.
  - intros vals H1 H2 Halerts Hq Hpos. unfold checkSelector, bind, HasComment, ret. fold c1 c2.
    rewrite H1. simpl. fold c2. rewrite H2. simpl. rewrite Halerts.
    unfold instantSeriesCount, promQuery, bind, ret. rewrite Hq. simpl.
    destruct (Z.ltb_spec 0 (sumZ vals)) as [_|Hle]; [|lia].
    rewrite <- !app_assoc. reflexivity.
Qed.

Lemma findRecordingRule_some entries record :
  (exists e, findRecordingRule entries record = Some e) <->
  exists e, In e entries /\ e_RecordingRule e = Some record /\ e_Error e = false.
Proof.
  unfold findRecordingRule. induction entries as [|e es IH]; simpl.
  - split; [intros [? H]; discriminate | intros (? & [] & _)].
  - destruct (e_RecordingRule e) as [r|] eqn:Hr.
    + destruct (negb (e_Error e) && String.eqb r record) eqn:Hc.
      * apply andb_true_iff in Hc as [He Hs]. apply negb_true_iff in He. apply String.eqb_eq in Hs. subst.
        split; [intros _; exists e; auto | intros _; eexists; reflexivity].
      * rewrite IH. split; [intros (x & Hx & Hx2); exists x; auto|].
        intros (x & [<-|Hx] & Hx1 & Hx2); [|exists x; auto].
        rewrite Hr in Hx1. injection Hx1 as ->. rewrite Hx2, String.eqb_refl in Hc. discriminate.
    + rewrite IH. split; [intros (x & Hx & Hx2); exists x; auto|].
      intros (x & [<-|Hx] & Hx1 & Hx2); [congruence | exists x; auto].
Qed.

(** Step 2: when the bare metric has no range in the window, the selector
    gets exactly one finding, on the bare selector: information when a
    recording rule without errors records that metric, a bug otherwise. *)
Theorem checkSelector_no_history (env : Env) (entries : list Entry) (selector : VectorSelector)
  (problems : list Problem) (log : list Event) (vals : list Z) (qr : RangeQueryResult) :
  let bare := VectorSelector_String (stripLabels selector) in
  rule_HasComment env ("disable " +:+ selectorKey selector) = false ->
  rule_HasComment env ("disable " +:+ selectorKey (stripLabels selector)) = false ->
  String.eqb (metricNameOf selector) "ALERTS" || String.eqb (metricNameOf selector) "ALERTS_FOR_STATE" = false ->
  prom_Query env (count (VectorSelector_String selector)) = Ok vals -> sumZ vals <= 0 ->
  prom_RangeQuery env (count bare) rangeLookback rangeStep = Ok qr ->
  ranges (timeRangesOf qr rangeStep) = [] ->
  exists p, fst (checkSelector env entries selector problems log) = problems ++ [p] /\
    Fragment p = bare /\
    (Severity_of p = Information <->
       exists e, In e entries /\ e_RecordingRule e = Some bare /\ e_Error e = false) /\
    (Severity_of p = Bug <->
       ~ exists e, In e entries /\ e_RecordingRule e = Some bare /\ e_Error e = false).
Proof.
  intros bare Hd1 Hd2 Halerts Hq Hcount Hqr Hr.
  unfold checkSelector, bind, HasComment, ret. cbv zeta. rewrite Hd1, Hd2, Halerts.
  unfold instantSeriesCount, promQuery, bind, ret. rewrite Hq.
  destruct (Z.ltb_spec 0 (sumZ vals)) as [Hlt|_]; [lia|].
  unfold serieTimeRanges, promRangeQuery, bind, ret. fold bare. rewrite Hqr, Hr.
  unfold noSeriesProblems. fold bare.
  pose proof (findRecordingRule_some entries bare) as Hiff.
  destruct (findRecordingRule entries bare) as [e|] eqn:Hf; eexists; (split; [reflexivity|]); simpl;
    (split; [reflexivity|]).
  - assert (Hex := proj1 Hiff (ex_intro _ e eq_refl)).
    split; [split; [intros _; exact Hex | intros _; reflexivity]|].
    split; [intros H; discriminate | intros H; exfalso; exact (H Hex)].
  - assert (Hno : ~ exists x, In x entries /\ e_RecordingRule x = Some bare /\ e_Error x = false).
    { intros Hex. destruct (proj2 Hiff Hex) as [x Hx]. discriminate. }
    split; [split; [intros H; discriminate | intros Hex; exfalso; exact (Hno Hex)]|].
    split; [intros _; exact Hno | intros _; reflexivity].
Qed.

Lemma checkSelector_no_history_witness :
  exists p, fst (checkSelector envDisappeared [] fooSel [] []) = [p] /\ Severity_of p = Bug.
Proof.
  assert (H1 : rule_HasComment envDisappeared ("disable " +:+ selectorKey fooSel) = false) by (vm_compute; reflexivity).
  assert (H2 : rule_HasComment envDisappeared ("disable " +:+ selectorKey (stripLabels fooSel)) = false) by (vm_compute; reflexivity).
  assert (H3 : String.eqb (metricNameOf fooSel) "ALERTS" || String.eqb (metricNameOf fooSel) "ALERTS_FOR_STATE" = false) by (vm_compute; reflexivity).
  assert (H4 : prom_Query envDisappeared (count (VectorSelector_String fooSel)) = Ok []) by (vm_compute; reflexivity).
  assert (H5 : prom_RangeQuery envDisappeared (count (VectorSelector_String (stripLabels fooSel))) rangeLookback rangeStep = Ok (window [])) by (vm_compute; reflexivity).
  assert (H6 : ranges (timeRangesOf (window []) rangeStep) = []) by (vm_compute; reflexivity).
  destruct (checkSelector_no_history envDisappeared [] fooSel [] [] [] (window []) H1 H2 H3 H4
              ltac:(vm_compute; discriminate) H5 H6) as (p & Hp & _ & _ & HBug).
  exists p. split; [exact Hp|]. apply HBug.
  intros (e & [] & _).
Defined.

(** Step 3: the loop over the label names makes exactly one range query per
    name, in order; the high churn labels it returns are, in order, the
    names whose query succeeded and showed high churn; and it adds at most
    one finding per name, each on the selector and from this check. *)
Theorem labelLoop_queries_and_churn env selector names problems hcl log :
  let res := labelLoop env selector names problems hcl log in
  snd res = log ++ map (fun n => EvRangeQuery (labelQuery selector n) rangeLookback rangeStep) names /\
  snd (fst res) = hcl ++ List.filter (fun n =>
      match prom_RangeQuery env (labelQuery selector n) rangeLookback rangeStep with
      | Ok qr => isHighChurn (timeRangesOf qr rangeStep) n
      | Err _ => false
      end) names /\
  exists extra, fst (fst res) = problems ++ extra /\ (length extra <= length names)%nat /\
    Forall (fun p => Fragment p = VectorSelector_String selector /\ Reporter p = SeriesCheckName) extra.
Proof.
  cbv zeta. revert problems hcl log.
  induction names as [|name names IH]; intros problems hcl log; simpl.
  - rewrite !app_nil_r. split; [reflexivity|]. split; [reflexivity|].
    exists []. rewrite app_nil_r. split; [reflexivity|]. split; [simpl; lia | constructor].
  - unfold bind, serieTimeRanges, promRangeQuery, bind, ret.
    destruct (prom_RangeQuery env (labelQuery selector name) rangeLookback rangeStep) as [qr|e] eqn:Hq.
    + set (ps' := match withLabelName (timeRangesOf qr rangeStep) name with
                  | [] => _ | _ => problems end).
      set (hc' := if isHighChurn (timeRangesOf qr rangeStep) name then hcl ++ [name] else hcl).
      destruct (IH ps' hc' (log ++ [EvRangeQuery (labelQuery selector name) rangeLookback rangeStep]))
        as (Hlog & Hhc & extra & Hex & Hlen & Hall).
      split; [rewrite Hlog, <- app_assoc; reflexivity|].
      split.
      * rewrite Hhc. subst hc'. destruct (isHighChurn _ name); simpl; [rewrite <- app_assoc|]; reflexivity.
      * rewrite Hex. subst ps'. destruct (withLabelName (timeRangesOf qr rangeStep) name).
        -- eexists. rewrite <- app_assoc. split; [reflexivity|]. simpl. split; [lia|].
           constructor; [split; reflexivity | exact Hall].
        -- exists extra. split; [reflexivity|]. split; [lia | exact Hall].
    + destruct (IH (problems ++ [queryProblem env e (VectorSelector_String selector)]) hcl
                  (log ++ [EvRangeQuery (labelQuery selector name) rangeLookback rangeStep]))
        as (Hlog & Hhc & extra & Hex & Hlen & Hall).
      split; [rewrite Hlog, <- app_assoc; reflexivity|].
      split; [exact Hhc|].
      rewrite Hex. eexists. rewrite <- app_assoc. split; [reflexivity|]. simpl. split; [lia|].
      constructor; [|exact Hall]. split; [|apply queryProblem_reporter].
      unfold queryProblem. destruct (textAndSeverityFromError env e Bug). reflexivity.
Qed.

Lemma anyComment_spec env texts log :
  exists evs, anyComment env texts log = (existsb (rule_HasComment env) texts, log ++ evs) /\
    Forall (fun ev => exists t, ev = EvHasComment t) evs.
Proof.
  revert log. induction texts as [|t texts IH]; intros log; simpl.
  - exists []. rewrite app_nil_r. split; [reflexivity | constructor].
  - unfold bind, HasComment. destruct (rule_HasComment env t); simpl.
    + exists [EvHasComment t]. split; [reflexivity|]. constructor; [eexists; reflexivity | constructor].
    + destruct (IH (log ++ [EvHasComment t])) as (evs & Heq & Hall). rewrite Heq.
      exists (EvHasComment t :: evs). rewrite <- app_assoc. split; [reflexivity|].
      constructor; [eexists; reflexivity | exact Hall].
Qed.

Lemma isLabelValueIgnored_spec env selector name log :
  exists evs, isLabelValueIgnored env selector name log =
              (fst (isLabelValueIgnored env selector name []), log ++ evs) /\
    Forall (fun ev => exists t, ev = EvHasComment t) evs.
Proof.
  unfold isLabelValueIgnored.
  destruct (anyComment_spec env
    ["rule/set " +:+ SeriesCheckName +:+ " ignore/label-value " +:+ name;
     "rule/set " +:+ selectorKey (stripLabels selector) +:+ " ignore/label-value " +:+ name;
     "rule/set " +:+ selectorKey selector +:+ " ignore/label-value " +:+ name] []) as (evs0 & H0 & _).
  rewrite H0. simpl fst. apply anyComment_spec.
Qed.

Lemma checkMatcher_log env selector bareSelector metricName trs hcl lm problems log :
  exists evs,
    snd (checkMatcher env selector bareSelector metricName trs hcl lm problems log) =
      log ++ EvRangeQuery (count (VectorSelector_String {| vs_Name := metricName; vs_LabelMatchers := [lm] |}))
                          rangeLookback rangeStep :: evs /\
    Forall (fun ev => exists k, ev = EvGetComment k) evs.
Proof.
  unfold checkMatcher, serieTimeRanges, promRangeQuery, bind, ret. cbv zeta.
  destruct (prom_RangeQuery _ _ _ _) as [qr|e]; cbv beta iota.
  - destruct (ranges (timeRangesOf qr rangeStep)) as [|r rs].
    + exists []. simpl. rewrite <- ?app_assoc. split; [reflexivity | constructor].
    + destruct (matcherDisappearanceApplies (timeRangesOf qr rangeStep)).
      * rewrite getMinAge_spec. cbv beta iota zeta.
        exists (map EvGetComment (minAgeKeys selector)).
        split.
        -- match goal with |- context [if ?b then _ else _] => destruct b end;
             simpl; rewrite <- ?app_assoc; reflexivity.
        -- apply List.Forall_forall. intros ev Hev. apply in_map_iff in Hev as (k & <- & _). eexists; reflexivity.
      * exists []. destruct (1 <? length (r :: rs))%nat; simpl; rewrite <- ?app_assoc; (split; [reflexivity | constructor]).
  - exists []. simpl. rewrite <- ?app_assoc. split; [reflexivity | constructor].
Qed.

Lemma omap_rangeQuery_nil evs :
  Forall (fun ev => (exists t, ev = EvHasComment t) \/ (exists k, ev = EvGetComment k)) evs ->
  omap (fun ev => match ev with EvRangeQuery q _ _ => Some q | _ => None end) evs = [].
Proof.
  induction 1 as [|ev evs Hev _ IH]; [reflexivity|].
  destruct Hev as [[t ->]|[k ->]]; exact IH.
Qed.

(** Steps 5 to 7: the loop over the label matchers makes one range query per
    checked matcher, in order, for [count(metricName{lm})] over the
    standard lookback and step: the matchers not on [__name__], of type
    equal or regexp, and not ignored by a comment. Besides those it only
    reads comments; it never makes an instant query. *)
Theorem matcherLoop_queries env selector bareSelector metricName trs hcl lms problems log :
  exists evs,
    snd (matcherLoop env selector bareSelector metricName trs hcl lms problems log) = log ++ evs /\
    omap (fun ev => match ev with EvRangeQuery q _ _ => Some q | _ => None end) evs =
      map (fun lm => count (VectorSelector_String {| vs_Name := metricName; vs_LabelMatchers := [lm] |}))
          (List.filter (fun lm => negb (String.eqb (lm_Name lm) MetricName)
                                  && (MatchType_eqb (lm_Type lm) MatchEqual || MatchType_eqb (lm_Type lm) MatchRegexp)
                                  && negb (fst (isLabelValueIgnored env selector (lm_Name lm) [])))
                       lms) /\
    Forall (fun ev => match ev with
                      | EvQuery _ => False
                      | EvRangeQuery _ lb st => lb = rangeLookback /\ st = rangeStep
                      | _ => True
                      end) evs.
Proof.
  revert problems log. induction lms as [|lm lms IH]; intros problems log; simpl.
  - exists []. rewrite app_nil_r. split; [reflexivity|]. split; [reflexivity | constructor].
  - destruct (String.eqb (lm_Name lm) MetricName); simpl; [apply IH|].
    assert (Hab : MatchType_eqb (lm_Type lm) MatchEqual || MatchType_eqb (lm_Type lm) MatchRegexp
                  = negb (negb (MatchType_eqb (lm_Type lm) MatchEqual) && negb (MatchType_eqb (lm_Type lm) MatchRegexp)))
      by (destruct (MatchType_eqb (lm_Type lm) MatchEqual), (MatchType_eqb (lm_Type lm) MatchRegexp); reflexivity).
    rewrite Hab.
    destruct (negb (MatchType_eqb (lm_Type lm) MatchEqual) && negb (MatchType_eqb (lm_Type lm) MatchRegexp));
      simpl; [apply IH|].
    unfold bind.
    destruct (isLabelValueIgnored_spec env selector (lm_Name lm) log) as (evs1 & Hi & Hall1). rewrite Hi.
    cbv beta iota.
    destruct (fst (isLabelValueIgnored env selector (lm_Name lm) [])); simpl.
    + destruct (IH problems (log ++ evs1)) as (evs2 & Hl2 & Ho2 & Ha2).
      exists (evs1 ++ evs2). rewrite Hl2, <- app_assoc. split; [reflexivity|].
      rewrite omap_app, omap_rangeQuery_nil.
      * rewrite Ho2. split; [reflexivity|]. apply Forall_app. split; [|exact Ha2].
        apply (Forall_impl _ _ _ Hall1). intros ev [t ->]. exact I.
      * apply (Forall_impl _ _ _ Hall1). intros ev Hev. left. exact Hev.
    + set (q := count (VectorSelector_String {| vs_Name := metricName; vs_LabelMatchers := [lm] |})).
      destruct (checkMatcher env selector bareSelector metricName trs hcl lm problems (log ++ evs1))
        as [problems' log'] eqn:Hc.
      destruct (checkMatcher_log env selector bareSelector metricName trs hcl lm problems (log ++ evs1))
        as (evs3 & Hl3 & Ha3).
      rewrite Hc in Hl3. simpl in Hl3. subst log'.
      destruct (IH problems' ((log ++ evs1) ++ EvRangeQuery q rangeLookback rangeStep :: evs3))
        as (evs2 & Hl2 & Ho2 & Ha2).
      exists (evs1 ++ EvRangeQuery q rangeLookback rangeStep :: evs3 ++ evs2).
      fold q. rewrite Hl2, <- !app_assoc. split; [reflexivity|].
      rewrite omap_app, omap_rangeQuery_nil;
        [| apply (Forall_impl _ _ _ Hall1); intros ev Hev; left; exact Hev].
      simpl. rewrite omap_app, omap_rangeQuery_nil;
        [| apply (Forall_impl _ _ _ Ha3); intros ev Hev; right; exact Hev].
      rewrite Ho2. split; [reflexivity|].
      apply Forall_app. split; [apply (Forall_impl _ _ _ Hall1); intros ev [t ->]; exact I|].
      constructor; [split; reflexivity|].
      apply Forall_app. split; [apply (Forall_impl _ _ _ Ha3); intros ev [k ->]; exact I | exact Ha2].
Qed.
